(** * Migration generator of go-kallax: a shallow embedding of
    [generator/generator.go] and the properties of its migration writer.

    Go strings are modelled by the sequence of runes that [range] yields
    over them; the file system, the clock and the console are one explicit
    [World] threaded through the effectful functions. *)

From Stdlib Require Import ZArith List String Ascii Bool Lia DecimalString.
From Stdlib Require DecimalPos DecimalZ.
From stdpp Require Import base option list gmap.
Import ListNotations.

Local Open Scope Z_scope.

(** ** Runes and strings *)

Abbreviation rune := Z (only parsing).
Abbreviation gostring := (list Z) (only parsing).

(** The rune of an ASCII character literal. *)
Definition rn (a : ascii) : rune := Z.of_N (N_of_ascii a).

(** The Go string of an ASCII literal. *)
Definition str (s : string) : gostring := map rn (list_ascii_of_string s).

Module utf8.
Definition RuneError : rune := 0xFFFD.
Definition MaxRune : rune := 0x10FFFF.
Definition RuneSelf : rune := 0x80.
Definition surrogateMin : rune := 0xD800.
Definition surrogateMax : rune := 0xDFFF.

Definition ValidRune (r : rune) : bool :=
  ((0 <=? r) && (r <? surrogateMin)) || ((surrogateMax <? r) && (r <=? MaxRune)).
End utf8.

Module unicode.
Definition MaxASCII : rune := 0x7F.

(** The case tables of Go's [unicode] package are no part of this
    repository: the mapping of the runes above [MaxASCII] is a parameter. *)
Class CaseTables := { To_LowerCase : rune -> rune }.

Definition ToLower `{CaseTables} (r : rune) : rune :=
  if r <=? MaxASCII then
    if (rn "A" <=? r) && (r <=? rn "Z") then r + (rn "a" - rn "A") else r
  else To_LowerCase r.
End unicode.

Module strings.
(** [strings.Map], seen on runes: a negative result drops the character,
    a result that is no valid rune is written as [utf8.RuneError]. *)
Definition Map (mapping : rune -> rune) (s : gostring) : gostring :=
  flat_map (fun c =>
    let r := mapping c in
    if r <? 0 then [] else [if utf8.ValidRune r then r else utf8.RuneError]) s.

Definition ToLower `{unicode.CaseTables} (s : gostring) : gostring :=
  Map unicode.ToLower s.
End strings.

(** ** slugify *)

Definition is_lower_alnum (r : rune) : bool :=
  ((rn "a" <=? r) && (r <=? rn "z")) || ((rn "0" <=? r) && (r <=? rn "9")).

Definition is_separator (r : rune) : bool :=
  (r =? rn " ") || (r =? rn "_") || (r =? rn "-").

(** One turn of the loop of [slugify]: what is appended to the buffer. *)
Definition slugify_step (buf : gostring) (r : rune) : gostring :=
  if is_lower_alnum r then buf ++ [r]
  else if is_separator r then buf ++ [rn "_"]
  else buf.

Definition slugify `{unicode.CaseTables} (s : gostring) : gostring :=
  fold_left slugify_step (strings.ToLower s) [].

(** A table for examples: the two runes above ASCII whose lower case is an
    ASCII letter (U+0130 and the Kelvin sign U+212A), and the Latin-1 and
    Greek capitals. *)
Definition sample_lower (r : rune) : rune :=
  if r =? 0x130 then rn "i"
  else if r =? 0x212A then rn "k"
  else if (0xC0 <=? r) && (r <=? 0xDE) && negb (r =? 0xD7) then r + 32
  else if (0x391 <=? r) && (r <=? 0x3A9) && negb (r =? 0x3A2) then r + 32
  else r.

Definition sample_tables : unicode.CaseTables := {| unicode.To_LowerCase := sample_lower |}.

(** ** Errors *)

Inductive Errno := ENOENT | EACCES | EISDIR | ENOSPC | EROFS | EIO.

Definition Errno_Error (e : Errno) : gostring :=
  str match e with
      | ENOENT => "no such file or directory"
      | EACCES => "permission denied"
      | EISDIR => "is a directory"
      | ENOSPC => "no space left on device"
      | EROFS => "read-only file system"
      | EIO => "input/output error"
      end.

(** Go's [error] values: the [*os.PathError] of a failed system call and the
    plain message of [fmt.Errorf]. A nil error is [None : option error]. *)
Inductive error :=
| PathError (Op Path : gostring) (Err : Errno)
| errorString (s : gostring).

Definition Error (e : error) : gostring :=
  match e with
  | PathError op path err => op ++ str " " ++ path ++ str ": " ++ Errno_Error err
  | errorString s => s
  end.

Module os.
Definition IsNotExist (err : option error) : bool :=
  match err with
  | Some (PathError _ _ ENOENT) => true
  | _ => false
  end.
End os.

Module fmt.
(** The verb [%d] on an [int64]. *)
Definition d (z : Z) : gostring := str (NilZero.string_of_int (Z.to_int z)).
End fmt.

(** ** File paths (Unix) *)

Module filepath.
Definition Separator : rune := rn "/".

Definition IsPathSeparator (c : rune) : bool := c =? Separator.

(** The elements of a path between its separators; never empty. *)
Fixpoint split (s : gostring) : list gostring :=
  match s with
  | [] => [[]]
  | c :: s' =>
      if IsPathSeparator c then [] :: split s'
      else match split s' with
           | e :: es => (c :: e) :: es
           | [] => [[c]]
           end
  end.

Definition dot : gostring := str ".".
Definition dotdot : gostring := str "..".

(** One element read by the loop of [Clean]; [out] holds the elements
    written so far, the last one first. An empty element and [.] are
    skipped, [..] removes the last real element or, on a path that is not
    rooted, is kept when there is none. *)
Definition clean_step (rooted : bool) (out : list gostring) (e : gostring)
  : list gostring :=
  if bool_decide (e = []) then out
  else if bool_decide (e = dot) then out
  else if bool_decide (e = dotdot) then
    match out with
    | top :: out' =>
        if bool_decide (top = dotdot) then (if rooted then out else e :: out)
        else out'
    | [] => if rooted then out else [e]
    end
  else e :: out.

(** Every element followed by a separator. *)
Definition with_separators (es : list gostring) : gostring :=
  concat (map (fun e => e ++ [Separator]) es).

Definition join_elements (es : list gostring) : gostring :=
  match reverse es with
  | [] => []
  | e :: front => with_separators (reverse front) ++ e
  end.

Definition is_rooted (path : gostring) : bool :=
  match path with
  | c :: _ => IsPathSeparator c
  | [] => false
  end.

Definition Clean (path : gostring) : gostring :=
  if bool_decide (path = []) then dot
  else
    let rooted := is_rooted path in
    let out := fold_left (clean_step rooted) (split path) [] in
    if rooted then Separator :: join_elements (reverse out)
    else if bool_decide (out = []) then dot
    else join_elements (reverse out).

(** [strings.Join(elem, "/")]. *)
Fixpoint strings_Join (elem : list gostring) : gostring :=
  match elem with
  | [] => []
  | [e] => e
  | e :: rest => e ++ Separator :: strings_Join rest
  end.

Fixpoint Join (elem : list gostring) : gostring :=
  match elem with
  | [] => []
  | e :: rest =>
      if bool_decide (e = []) then Join rest else Clean (strings_Join elem)
  end.

Fixpoint strip_trailing (path : gostring) : gostring :=
  match path with
  | [] => []
  | c :: p =>
      match strip_trailing p with
      | [] => if IsPathSeparator c then [] else [c]
      | p' => c :: p'
      end
  end.

Fixpoint last_element (path : gostring) : gostring :=
  match path with
  | [] => []
  | c :: p =>
      if existsb IsPathSeparator p then last_element p
      else if IsPathSeparator c then p else c :: p
  end.

Definition Base (path : gostring) : gostring :=
  if bool_decide (path = []) then dot
  else
    let path := last_element (strip_trailing path) in
    if bool_decide (path = []) then [Separator] else path.
End filepath.

(** ** The world: files, pending I/O faults, clock, console, system-call log *)

Record Time := { unix_sec : Z; nsec : Z }.

Definition Time_Unix (t : Time) : Z := unix_sec t.

(** What the operating system answers to a request it refuses; a refused
    write has still put the first [partial] bytes into the file. *)
Record Fault := { errno : Errno; partial : nat }.

Inductive Event :=
| EvRead (name : gostring)
| EvOpen (name : gostring)
| EvOpenFailed (name : gostring) (e : Errno)
| EvWrite (name : gostring) (data : gostring)
| EvWriteFailed (name : gostring) (written : gostring) (e : Errno)
| EvClose (name : gostring)
| EvCloseFailed (name : gostring) (e : Errno).

Inductive Attribute := FgRed | FgGreen | FgYellow | Bold.

Inductive Output :=
| Plain (s : gostring)
| Colored (attrs : list Attribute) (s : gostring).

Record World := {
  files : gmap (list Z) (list Z);   (* the regular files and their contents *)
  faults : list (option Fault);     (* the answers to the next I/O requests *)
  clock : nat -> Time;              (* the successive readings of the clock *)
  clock_reads : nat;
  stdout : list Output;
  syscalls : list Event             (* the I/O requests made so far, oldest first *)
}.

Definition IO (A : Type) : Type := World -> A * World.

Definition ret {A} (a : A) : IO A := fun w => (a, w).

Definition bind {A B} (c : IO A) (k : A -> IO B) : IO B :=
  fun w => let (a, w') := c w in k a w'.

Notation "x <- c ;; k" := (bind c (fun x => k))
  (at level 100, c at next level, right associativity).

Definition next_fault : IO (option Fault) := fun w =>
  (match faults w with o :: _ => o | [] => None end,
   {| files := files w; faults := tail (faults w); clock := clock w;
      clock_reads := clock_reads w; stdout := stdout w; syscalls := syscalls w |}).

Definition set_file (name : gostring) (content : gostring) : IO unit := fun w =>
  (tt, {| files := <[name := content]> (files w); faults := faults w; clock := clock w;
          clock_reads := clock_reads w; stdout := stdout w; syscalls := syscalls w |}).

Definition record_event (ev : Event) : IO unit := fun w =>
  (tt, {| files := files w; faults := faults w; clock := clock w;
          clock_reads := clock_reads w; stdout := stdout w;
          syscalls := syscalls w ++ [ev] |}).

Definition print (o : Output) : IO unit := fun w =>
  (tt, {| files := files w; faults := faults w; clock := clock w;
          clock_reads := clock_reads w; stdout := stdout w ++ [o];
          syscalls := syscalls w |}).

Definition get_file (name : gostring) : IO (option (list Z)) := fun w =>
  (files w !! name, w).

(** A [Timestamper] is a [func() time.Time]: it is given the clock and the
    number of readings made so far, and answers a time and the new number of
    readings. It does no file I/O. *)
Definition Timestamper := (nat -> Time) -> nat -> Time * nat.

Module time.
Definition Now : Timestamper := fun clock reads => (clock reads, S reads).
End time.

(** A call of a [Timestamper]. *)
Definition call_timestamper (ts : Timestamper) : IO Time := fun w =>
  let (t, reads) := ts (clock w) (clock_reads w) in
  (t, {| files := files w; faults := faults w; clock := clock w;
         clock_reads := reads; stdout := stdout w; syscalls := syscalls w |}).

Definition nl : gostring := [10].

Definition fmt_Println (s : gostring) : IO unit := print (Plain (s ++ nl)).

Definition color_Printf (attrs : list Attribute) (s : gostring) : IO unit :=
  print (Colored attrs s).

(** An open file is known by its name. *)
Definition File := list Z.

(** [ioutil.ReadFile]: the contents of the file, or an error; a file that
    is not there gives [ENOENT]. *)
Definition ioutil_ReadFile (filename : gostring) : IO (list Z * option error) :=
  _ <- record_event (EvRead filename) ;;
  flt <- next_fault ;;
  content <- get_file filename ;;
  match content with
  | None => ret ([], Some (PathError (str "open") filename ENOENT))
  | Some data =>
      match flt with
      | Some f => ret ([], Some (PathError (str "read") filename (errno f)))
      | None => ret (data, None)
      end
  end.

(** [os.OpenFile(name, os.O_TRUNC|os.O_CREATE|os.O_WRONLY, 0755)]. *)
Definition os_OpenFile (name : gostring) : IO (File + error) :=
  flt <- next_fault ;;
  match flt with
  | Some f =>
      _ <- record_event (EvOpenFailed name (errno f)) ;;
      ret (inr (PathError (str "open") name (errno f)))
  | None =>
      _ <- set_file name [] ;;
      _ <- record_event (EvOpen name) ;;
      ret (inl name)
  end.

Definition File_Write (f : File) (b : gostring) : IO (Z * option error) :=
  flt <- next_fault ;;
  content <- get_file f ;;
  let old := default [] content in
  match flt with
  | Some x =>
      let done := take (partial x) b in
      _ <- set_file f (old ++ done) ;;
      _ <- record_event (EvWriteFailed f done (errno x)) ;;
      ret (Z.of_nat (length done), Some (PathError (str "write") f (errno x)))
  | None =>
      _ <- set_file f (old ++ b) ;;
      _ <- record_event (EvWrite f b) ;;
      ret (Z.of_nat (length b), None)
  end.

Definition File_Close (f : File) : IO (option error) :=
  flt <- next_fault ;;
  match flt with
  | Some x =>
      _ <- record_event (EvCloseFailed f (errno x)) ;;
      ret (Some (PathError (str "close") f (errno x)))
  | None =>
      _ <- record_event (EvClose f) ;;
      ret None
  end.

(** ** The types of the package that [generator.go] uses *)

(** Modelled from the spec: the column of a table, declared in a file of
    the package that is not among the sources. *)
Record ColumnSchema := {
  Column_Name : gostring; Column_Type : gostring;
  Column_NotNull : bool; Column_PrimaryKey : bool }.

(** Modelled from the spec: a table, its name and its columns in order;
    the declaration is not among the sources. *)
Record TableSchema := { Table_Name : gostring; Columns : list ColumnSchema }.

(** Modelled from the spec: the schema snapshot [DBSchema], the tables of
    the schema in order; the declaration is not among the sources. *)
Record DBSchema := { Tables : list TableSchema }.

(** [new(DBSchema)]: the zero value. *)
Definition new_DBSchema : DBSchema := {| Tables := [] |}.

(** Modelled from the spec: the variants of [Change], declared in a file of
    the package that is not among the sources. *)
Inductive Change :=
| CreateTable (table : gostring)
| DropTable (table : gostring)
| AddColumn (table column : gostring)
| DropColumn (table column : gostring)
| AlterColumn (table column : gostring)
| AddIndex (table index : gostring)
| DropIndex (table index : gostring)
| ManualChange (description : gostring).

(** Modelled from the spec: a [ChangeSet] is a sequence of changes. *)
Definition ChangeSet := list Change.

(** Modelled from the spec: a [Migration] holds the Up list, the Down list
    and the new lock; the declaration is not among the sources. *)
Record Migration := { Up : ChangeSet; Down : ChangeSet; Lock : DBSchema }.

(** The methods that [generator.go] calls on these types and that are
    declared elsewhere, with [json.Unmarshal] into a [DBSchema]. *)
Class Methods := {
  DBSchema_MarshalText : DBSchema -> list Z * option error;
  ChangeSet_MarshalText : ChangeSet -> list Z * option error;
  Change_String : Change -> list Z;
  json_Unmarshal : list Z -> DBSchema -> DBSchema * option error
}.

(** A value of the interface [encoding.TextMarshaler]. *)
Record TextMarshaler := { MarshalText : list Z * option error }.

Definition DBSchema_marshaler `{Methods} (s : DBSchema) : TextMarshaler :=
  {| MarshalText := DBSchema_MarshalText s |}.

Definition ChangeSet_marshaler `{Methods} (cs : ChangeSet) : TextMarshaler :=
  {| MarshalText := ChangeSet_MarshalText cs |}.

(** ** The migration generator *)

Record MigrationGenerator := {
  name : list Z;
  dir : list Z;
  now : Timestamper
}.

Inductive migrationFileType := migrationUp | migrationDown | migrationLock.

Definition migrationFileType_string (typ : migrationFileType) : gostring :=
  match typ with
  | migrationUp => str "up.sql"
  | migrationDown => str "down.sql"
  | migrationLock => str "lock.json"
  end.

Definition NewMigrationGenerator `{unicode.CaseTables} (name dir : gostring)
  : MigrationGenerator :=
  {| name := slugify name; dir := dir; now := time.Now |}.

Definition change_color (change : Change) : Attribute :=
  match change with
  | DropColumn _ _ | DropTable _ => FgRed
  | ManualChange _ => FgYellow
  | _ => FgGreen
  end.

Fixpoint print_changes `{Methods} (changes : list Change) : IO unit :=
  match changes with
  | [] => ret tt
  | change :: rest =>
      _ <- color_Printf [change_color change; Bold] (str " => ") ;;
      _ <- fmt_Println (Change_String change) ;;
      print_changes rest
  end.

Definition no_changes_message : gostring :=
  str "There are no changes since last migration. Nothing will be generated.".

Definition changes_message : gostring :=
  str "There are changes since last migration." ++ nl ++ nl
  ++ str "These are the proposed changes:".

Definition printMigrationInfo `{Methods} (g : MigrationGenerator) (migration : Migration)
  : IO unit :=
  if bool_decide (length (Up migration) = 0%nat) then
    fmt_Println no_changes_message
  else
    _ <- fmt_Println changes_message ;;
    print_changes (Up migration).

Definition LoadLock `{Methods} (g : MigrationGenerator)
  : IO (option DBSchema * option error) :=
  r <- ioutil_ReadFile (filepath.Join [dir g; migrationFileType_string migrationLock]) ;;
  let (bytes, err) := r in
  if os.IsNotExist err then ret (Some new_DBSchema, None)
  else
    match err with
    | Some e => ret (None, Some (errorString (str "error opening lock file: " ++ Error e)))
    | None =>
        let (schema, uerr) := json_Unmarshal bytes new_DBSchema in
        match uerr with
        | Some e =>
            ret (None, Some (errorString (str "error unmarshaling lock schema: " ++ Error e)))
        | None => ret (Some schema, None)
        end
    end.

Definition migrationFile (g : MigrationGenerator) (typ : migrationFileType) (t : Time)
  : gostring :=
  filepath.Join
    [dir g; fmt.d (Time_Unix t) ++ str "_" ++ name g ++ str "." ++ migrationFileType_string typ].

Definition createFile (filename : gostring) (marshaler : TextMarshaler) : IO (option error) :=
  let (data, err) := MarshalText marshaler in
  match err with
  | Some e => ret (Some e)
  | None =>
      r <- os_OpenFile filename ;;
      match r with
      | inr e =>
          ret (Some (errorString
                 (str "error opening file: " ++ filename ++ str ": " ++ Error e)))
      | inl f =>
          w <- File_Write f data ;;
          _ <- File_Close f ;;   (* deferred; its result is discarded *)
          match snd w with
          | Some e =>
              ret (Some (errorString
                     (str "error writing file: " ++ filename ++ str ": " ++ Error e)))
          | None => ret None
          end
      end
  end.

(** The loop of [writeMigration] over its three files. *)
Fixpoint write_files (files : list (list Z * TextMarshaler)) : IO (option error) :=
  match files with
  | [] => ret None
  | f :: rest =>
      err <- createFile (fst f) (snd f) ;;
      match err with
      | Some e => ret (Some e)
      | None => write_files rest
      end
  end.

Definition writeMigration `{Methods} (g : MigrationGenerator) (migration : Migration)
  : IO (option error) :=
  t <- call_timestamper (now g) ;;
  let files :=
    [ (filepath.Join [dir g; migrationFileType_string migrationLock],
       DBSchema_marshaler (Lock migration));
      (migrationFile g migrationDown t, ChangeSet_marshaler (Down migration));
      (migrationFile g migrationUp t, ChangeSet_marshaler (Up migration)) ] in
  write_files files.

Definition Generate `{Methods} (g : MigrationGenerator) (migration : Migration)
  : IO (option error) :=
  _ <- printMigrationInfo g migration ;;
  if bool_decide (length (Up migration) = 0%nat) then ret None
  else writeMigration g migration.

(** ** Observations on a run *)

(** The file an I/O request is about. *)
Definition event_name (ev : Event) : list Z :=
  match ev with
  | EvRead n | EvOpen n | EvOpenFailed n _ | EvWrite n _
  | EvWriteFailed n _ _ | EvClose n | EvCloseFailed n _ => n
  end.

(** The artifact [p] has been written: its data went into the file whole. *)
Definition written (p : list Z) (tr : list Event) : Prop :=
  exists data, EvWrite p data ∈ tr.

(** An I/O request about [p] has been made. *)
Definition touched (p : list Z) (tr : list Event) : Prop :=
  exists ev, ev ∈ tr /\ event_name ev = p.

(** The three files of a run whose clock reading is [t], in the order of
    [writeMigration]. *)
Definition lockFile (g : MigrationGenerator) : list Z :=
  filepath.Join [dir g; migrationFileType_string migrationLock].

Definition artifacts (g : MigrationGenerator) (t : Time) : list (list Z) :=
  [lockFile g; migrationFile g migrationDown t; migrationFile g migrationUp t].

(** The characters of a slug. *)
Definition slug_char (r : rune) : Prop := is_lower_alnum r = true \/ r = rn "_".

(** No separator in [s]. *)
Definition nosep (s : list Z) : Prop := Forall (fun c => c <> filepath.Separator) s.

(** A path element that [Clean] keeps as it is. *)
Definition real_element (e : list Z) : Prop :=
  e <> [] /\ e <> filepath.dot /\ e <> filepath.dotdot /\ nosep e.

(** Empty, or ending in a separator. *)
Definition sep_terminated (p : list Z) : Prop :=
  p = [] \/ exists x, p = x ++ [filepath.Separator].

(** What [Clean] makes of the directory [front] of [front/e]. *)
Definition clean_front (front : list Z) : list Z :=
  let rooted := filepath.is_rooted (front ++ [filepath.Separator]) in
  (if rooted then [filepath.Separator] else [])
  ++ filepath.with_separators
       (reverse (fold_left (filepath.clean_step rooted) (filepath.split front) [])).

(** The argument that [Join] hands to [Clean]. *)
Definition joined (dir e : list Z) : list Z :=
  if bool_decide (dir = []) then e else dir ++ filepath.Separator :: e.

(** The name that [migrationFile] gives to a script. *)
Definition script_name (z : Z) (slug : list Z) (typ : migrationFileType) : list Z :=
  fmt.d z ++ str "_" ++ slug ++ str "." ++ migrationFileType_string typ.

(** The time that a run of [writeMigration] started in [w] reads. *)
Definition run_time (g : MigrationGenerator) (w : World) : Time :=
  fst (now g (clock w) (clock_reads w)).

(** The I/O requests that [c] adds to the log of [w]. *)
Definition events_of {A} (c : IO A) (w : World) : list Event :=
  drop (length (syscalls w)) (syscalls (snd (c w))).

(** The artifacts written whole, with their data, in the order of writing. *)
Definition writes (tr : list Event) : list (list Z * list Z) :=
  omap (fun ev => match ev with EvWrite p data => Some (p, data) | _ => None end) tr.

(** The request [ev] is an open or a write of [p] that the system refused. *)
Definition write_failure (p : list Z) (ev : Event) : Prop :=
  (exists e, ev = EvOpenFailed p e) \/ (exists written e, ev = EvWriteFailed p written e).

(** The request [ev] closes [p], with or without success. *)
Definition close_event (p : list Z) (ev : Event) : Prop :=
  ev = EvClose p \/ exists e, ev = EvCloseFailed p e.

(** The four ways [createFile] ends on the file [p]: its result, the
    requests it made and the files it leaves. *)
Inductive created (p : list Z) (m : TextMarshaler) (fs : gmap (list Z) (list Z))
  : option error -> list Event -> gmap (list Z) (list Z) -> Prop :=
| created_marshal_failed data e :
    MarshalText m = (data, Some e) ->
    created p m fs (Some e) [] fs
| created_open_failed data en :
    MarshalText m = (data, None) ->
    created p m fs
      (Some (errorString (str "error opening file: " ++ p ++ str ": "
                          ++ Error (PathError (str "open") p en))))
      [EvOpenFailed p en] fs
| created_write_failed data done en c :
    MarshalText m = (data, None) ->
    close_event p c ->
    created p m fs
      (Some (errorString (str "error writing file: " ++ p ++ str ": "
                          ++ Error (PathError (str "write") p en))))
      [EvOpen p; EvWriteFailed p done en; c] (<[p := done]> fs)
| created_ok data c :
    MarshalText m = (data, None) ->
    close_event p c ->
    created p m fs None [EvOpen p; EvWrite p data; c] (<[p := data]> fs).

(** The runs of the loop of [writeMigration]: it stops at the first file
    that [createFile] fails on. *)
Inductive wrote : list (list Z * TextMarshaler) -> gmap (list Z) (list Z)
                  -> option error -> list Event -> gmap (list Z) (list Z) -> Prop :=
| wrote_nil fs : wrote [] fs None [] fs
| wrote_failed p m rest fs e evs fs' :
    created p m fs (Some e) evs fs' ->
    wrote ((p, m) :: rest) fs (Some e) evs fs'
| wrote_next p m rest fs evs1 fs1 r evs2 fs2 :
    created p m fs None evs1 fs1 ->
    wrote rest fs1 r evs2 fs2 ->
    wrote ((p, m) :: rest) fs r (evs1 ++ evs2) fs2.

(** The two worlds differ in their files, pending faults and log only. *)
Definition same_clock_console (w w' : World) : Prop :=
  clock w' = clock w /\ clock_reads w' = clock_reads w /\ stdout w' = stdout w.

(** The ordering that the specification asks of a run: at every point of
    the run, a written lock file comes with both written scripts. *)
Definition lock_written_last `{Methods} (g : MigrationGenerator) (m : Migration) (w : World)
  : Prop :=
  forall tr, tr `prefix_of` events_of (Generate g m) w ->
    written (lockFile g) tr ->
    written (migrationFile g migrationDown (run_time g w)) tr
    /\ written (migrationFile g migrationUp (run_time g w)) tr.

(** The ordering of the code: at every point of the run, a request about
    the down script comes after the lock file is written, and a request
    about the up script after the lock file and the down script are. *)
Definition lock_written_first `{Methods} (g : MigrationGenerator) (m : Migration) (w : World)
  : Prop :=
  forall tr, tr `prefix_of` events_of (Generate g m) w ->
    (touched (migrationFile g migrationDown (run_time g w)) tr ->
     written (lockFile g) tr)
    /\ (touched (migrationFile g migrationUp (run_time g w)) tr ->
        written (lockFile g) tr
        /\ written (migrationFile g migrationDown (run_time g w)) tr).

(** The files that [writeMigration] hands to its loop, [t] being its
    reading of the clock. *)
Definition migration_files `{Methods} (g : MigrationGenerator) (m : Migration) (t : Time)
  : list (list Z * TextMarshaler) :=
  [ (lockFile g, DBSchema_marshaler (Lock m));
    (migrationFile g migrationDown t, ChangeSet_marshaler (Down m));
    (migrationFile g migrationUp t, ChangeSet_marshaler (Up m)) ].

(** The two worlds differ in their console only. *)
Definition same_io (w w' : World) : Prop :=
  files w' = files w /\ faults w' = faults w /\ clock w' = clock w
  /\ clock_reads w' = clock_reads w /\ syscalls w' = syscalls w.

(** ** [Build] and the generator of code *)

(** [fmt.Printf], its operands already in the text. *)
Definition fmt_Printf (s : gostring) : IO unit := print (Plain s).

Definition remove_file (name : gostring) : IO unit := fun w =>
  (tt, {| files := delete name (files w); faults := faults w; clock := clock w;
          clock_reads := clock_reads w; stdout := stdout w; syscalls := syscalls w |}).

(** [os.Create]: the file is created or truncated, as by [os.OpenFile]. *)
Definition os_Create (name : gostring) : IO (File + error) := os_OpenFile name.

(** [os.Remove]; a file that is not there gives [ENOENT]. The log of I/O
    requests has no entry for a removal. *)
Definition os_Remove (name : gostring) : IO (option error) :=
  flt <- next_fault ;;
  content <- get_file name ;;
  match content with
  | None => ret (Some (PathError (str "remove") name ENOENT))
  | Some _ =>
      match flt with
      | Some x => ret (Some (PathError (str "remove") name (errno x)))
      | None =>
          _ <- remove_file name ;;
          ret None
      end
  end.

(** How a call that may panic ends: it returns its error, or it panics
    with a value, known here by the text that [%s] prints for it. *)
Inductive Outcome :=
| Returned (err : option error)
| Panicked (r : list Z).

(** What [generator.go] uses of the packages scanned and of the template,
    declared elsewhere: the type [Package], [SchemaFromPackages],
    [NewMigration], the execution of the template [Base] on an open file,
    and the error that [fmt.Errorf(string(debug.Stack()))] makes where a
    panic is recovered. A nil pointer is [None]. *)
Class Packages := {
  Package : Type;
  SchemaFromPackages : list Package -> option DBSchema * option error;
  NewMigration : option DBSchema -> option DBSchema -> option Migration * option error;
  Base_Execute : File -> Package -> IO Outcome;
  Errorf_debug_Stack : error
}.

Definition Build `{Methods} `{Packages} (g : MigrationGenerator) (pkgs : list Package)
  : IO (option Migration * option error) :=
  r <- LoadLock g ;;
  let (old, err) := r in
  match err with
  | Some e => ret (None, Some e)
  | None =>
      let (new, err) := SchemaFromPackages pkgs in
      match err with
      | Some e => ret (None, Some e)
      | None => ret (NewMigration old new)
      end
  end.

Record Generator := { filename : list Z }.

Definition NewGenerator (filename : gostring) : Generator := {| filename := filename |}.

Definition panic_message (filename r : gostring) : gostring :=
  str "kallax: PANIC during '" ++ filename ++ str "' generation:" ++ nl ++ r ++ nl ++ nl.

Definition no_file_message : gostring :=
  str "kallax: No file generated due to an occurred error:".

Definition not_deleted_message (filename : gostring) : gostring :=
  str "kallax: The autogenerated file '" ++ filename
  ++ str "' could not be completed nor deleted due to an occurred error:" ++ nl.

(** The function that [writeFile] defers, [err] being the named result
    when it runs and [out] the way the body ended. *)
Definition writeFile_deferred (g : Generator) `{Packages} (file : File) (err : option error)
    (out : Outcome) : IO (option error) :=
  err <- match out with
         | Panicked r =>
             _ <- fmt_Printf (panic_message (filename g) r) ;;
             ret (match err with None => Some Errorf_debug_Stack | Some e => Some e end)
         | Returned _ => ret err
         end ;;
  _ <- File_Close file ;;
  match err with
  | Some e =>
      rm <- os_Remove (filename g) ;;
      _ <- match rm with
           | None => fmt_Println no_file_message
           | Some _ => fmt_Printf (not_deleted_message (filename g))
           end ;;
      ret (Some e)
  | None => ret None
  end.

Definition writeFile `{Packages} (g : Generator) (pkg : Package) : IO (option error) :=
  r <- os_Create (filename g) ;;
  match r with
  | inr err => ret (Some err)
  | inl file =>
      out <- Base_Execute file pkg ;;
      (* a panic leaves the named result as [os.Create] set it: nil *)
      writeFile_deferred g file
        (match out with Returned err => err | Panicked _ => None end) out
  end.

(** [Generator.Generate]. *)
Definition Generator_Generate `{Packages} (g : Generator) (pkg : Package)
  : IO (option error) :=
  writeFile g pkg.

(** The run of the template inside [writeFile], on the file just created:
    how it ends, and the world it leaves. *)
Definition template_run `{Packages} (g : Generator) (pkg : Package) (w : World)
  : Outcome * World :=
  Base_Execute (filename g) pkg (snd (os_Create (filename g) w)).

(** The lines that the deferred function prints for the outcome [out]
    before it closes the file. *)
Definition panic_lines (g : Generator) (out : Outcome) : list Output :=
  match out with
  | Panicked r => [Plain (panic_message (filename g) r)]
  | Returned _ => []
  end.

(** The error that [writeFile] returns for the outcome [out]. *)
Definition outcome_error `{Packages} (out : Outcome) : option error :=
  match out with
  | Returned err => err
  | Panicked _ => Some Errorf_debug_Stack
  end.

(** The upper case of an ASCII letter, any other rune as it is. *)
Definition ascii_upper (r : rune) : rune :=
  if (rn "a" <=? r) && (r <=? rn "z") then r - (rn "a" - rn "A") else r.

(** What [printMigrationInfo] prints for a change. *)
Definition change_lines `{Methods} (c : Change) : list Output :=
  [Colored [change_color c; Bold] (str " => "); Plain (Change_String c ++ nl)].

(** A request about [p] that the system refused: an open, a write or a
    close. *)
Definition refused (p : list Z) (ev : Event) : Prop :=
  (exists e, ev = EvOpenFailed p e)
  \/ (exists written e, ev = EvWriteFailed p written e)
  \/ (exists e, ev = EvCloseFailed p e).

(** The message holds the name of the file [p]. *)
Definition names_file (msg p : list Z) : Prop :=
  exists front back, msg = front ++ p ++ back.

(** The reporting that the specification asks of a run: every refused
    request about an artifact makes [Generate] return an error that names
    the file of that artifact and leaves the later artifacts alone, and
    every error that [Generate] returns names the file of an artifact. *)
Definition reports_every_failure `{Methods} (g : MigrationGenerator) (m : Migration)
    (w : World) : Prop :=
  (forall p ev,
     ev ∈ events_of (Generate g m) w -> refused p ev ->
     (exists e, fst (Generate g m w) = Some e /\ names_file (Error e) p)
     /\ forall (i j : nat) q,
          artifacts g (run_time g w) !! i = Some p ->
          artifacts g (run_time g w) !! j = Some q ->
          (i < j)%nat ->
          ~ touched q (events_of (Generate g m) w))
  /\ (forall e,
        fst (Generate g m w) = Some e ->
        exists p, p ∈ artifacts g (run_time g w) /\ names_file (Error e) p).

(** ** A small instance for the examples *)

Definition sample_Change_String (c : Change) : list Z :=
  match c with
  | CreateTable t => str "create table " ++ t
  | DropTable t => str "drop table " ++ t
  | AddColumn t c => str "add column " ++ c ++ str " to " ++ t
  | DropColumn t c => str "drop column " ++ c ++ str " of " ++ t
  | AlterColumn t c => str "alter column " ++ c ++ str " of " ++ t
  | AddIndex t i => str "add index " ++ i ++ str " on " ++ t
  | DropIndex t i => str "drop index " ++ i ++ str " on " ++ t
  | ManualChange d => str "manual change: " ++ d
  end.

Definition sample_methods : Methods := {|
  DBSchema_MarshalText s :=
    (str "{" ++ concat (map (fun t => Table_Name t ++ str ";") (Tables s)) ++ str "}", None);
  ChangeSet_MarshalText cs :=
    (concat (map (fun c => sample_Change_String c ++ nl) cs), None);
  Change_String := sample_Change_String;
  json_Unmarshal data s :=
    if bool_decide (data = str "{}") then (new_DBSchema, None)
    else (s, Some (errorString (str "invalid character in lock")))
|}.

Definition sample_world (fs : gmap (list Z) (list Z)) (flts : list (option Fault)) : World :=
  {| files := fs; faults := flts;
     clock := fun n => {| unix_sec := 1700000000 + Z.of_nat n; nsec := 0 |};
     clock_reads := 0; stdout := []; syscalls := [] |}.

Definition sample_migration : Migration :=
  {| Up := [CreateTable (str "users")]; Down := [DropTable (str "users")];
     Lock := {| Tables := [{| Table_Name := str "users"; Columns := [] |}] |} |}.

Definition sample_generator : MigrationGenerator :=
  @NewMigrationGenerator sample_tables (str "Add Users") (str "db/migrations").

(** Packages for the examples: a package is its name and gives one table;
    the template writes a line, fails on the package [bad] and panics on
    the package without a name. *)
Definition sample_packages : Packages := {|
  Package := list Z;
  SchemaFromPackages pkgs :=
    if bool_decide (str "bad" ∈ pkgs) then (None, Some (errorString (str "bad package")))
    else (Some {| Tables := map (fun n => {| Table_Name := n; Columns := [] |}) pkgs |}, None);
  NewMigration old new :=
    match old, new with
    | Some o, Some n =>
        (Some {| Up := map (fun t => CreateTable (Table_Name t)) (Tables n);
                 Down := map (fun t => DropTable (Table_Name t)) (Tables n);
                 Lock := n |}, None)
    | _, _ => (None, Some (errorString (str "nil schema")))
    end;
  Base_Execute file pkg :=
    if bool_decide (pkg = []) then ret (Panicked (str "no package"))
    else if bool_decide (pkg = str "bad") then
      ret (Returned (Some (errorString (str "bad package"))))
    else
      r <- File_Write file (str "package " ++ pkg ++ nl) ;;
      ret (Returned (snd r));
  Errorf_debug_Stack := errorString (str "goroutine 1 [running]")
|}.

(** Methods for the examples that refuse to marshal a schema with a
    table without a name. *)
Definition strict_methods : Methods := {|
  DBSchema_MarshalText s :=
    if bool_decide (Forall (fun t => Table_Name t <> []) (Tables s))
    then @DBSchema_MarshalText sample_methods s
    else ([], Some (errorString (str "table without a name")));
  ChangeSet_MarshalText := @ChangeSet_MarshalText sample_methods;
  Change_String := sample_Change_String;
  json_Unmarshal := @json_Unmarshal sample_methods
|}.

(** A generator of code for the examples. *)
Definition sample_file : Generator := NewGenerator (str "models/kallax.go").

(** Methods for the examples that do not marshal a change set with a
    manual change. *)
Definition manual_methods : Methods := {|
  DBSchema_MarshalText := @DBSchema_MarshalText sample_methods;
  ChangeSet_MarshalText cs :=
    if existsb (fun c => match c with ManualChange _ => true | _ => false end) cs
    then ([], Some (errorString (str "unsupported change")))
    else @ChangeSet_MarshalText sample_methods cs;
  Change_String := sample_Change_String;
  json_Unmarshal := @json_Unmarshal sample_methods
|}.

(** A migration whose Down list holds a manual change. *)
Definition manual_migration : Migration :=
  {| Up := [AlterColumn (str "orders") (str "status")];
     Down := [ManualChange (str "orders.status")];
     Lock := {| Tables := [{| Table_Name := str "orders"; Columns := [] |}] |} |}.

(** * Properties *)

(** ** The model at work *)

Example slugify_sample :
  @slugify sample_tables (str "Add Users-Table_v2!") = str "add_users_table_v2".
Proof. reflexivity. Qed.

Example slugify_kelvin :
  @slugify sample_tables [0x212A; 0xC9; rn " "; rn " "; rn "Q"] = str "k__q".
Proof. reflexivity. Qed.

Example Clean_samples :
  map filepath.Clean
      [str "a//b/./c/.."; str "/../a/b/../../.."; str "../../x/"; str "a/.."; str ""; str "/"; str "abc"; str "./a/../../b"]
  = [str "a/b"; str "/"; str "../../x"; str "."; str "."; str "/"; str "abc"; str "../b"].
Proof. reflexivity. Qed.

Example Join_samples :
  map filepath.Join
      [[str "migrations"; str "lock.json"]; [str ""; str "lock.json"]; [str "/db/m/"; str "1_x.up.sql"]; [str "a/b/.."; str "c"]; [str ""; str ""]]
  = [str "migrations/lock.json"; str "lock.json"; str "/db/m/1_x.up.sql"; str "a/c"; str ""].
Proof. reflexivity. Qed.

Example Base_samples :
  map filepath.Base [str "a/b/c.sql"; str "a/b//"; str "///"; str ""; str "x"]
  = [str "c.sql"; str "b"; str "/"; str "."; str "x"].
Proof. reflexivity. Qed.

(** ** Runes *)

Ltac rn_norm :=
  repeat match goal with
    | |- context [rn ?c] =>
        let v := eval vm_compute in (rn c) in change (rn c) with v
    | H : context [rn ?c] |- _ =>
        let v := eval vm_compute in (rn c) in change (rn c) with v in H
    end.

Ltac zbool :=
  repeat match goal with
    | |- context [?a <=? ?b] => destruct (Z.leb_spec a b)
    | |- context [?a <? ?b] => destruct (Z.ltb_spec a b)
    | |- context [?a =? ?b] => destruct (Z.eqb_spec a b)
    | H : context [?a <=? ?b] |- _ => destruct (Z.leb_spec a b)
    | H : context [?a <? ?b] |- _ => destruct (Z.ltb_spec a b)
    | H : context [?a =? ?b] |- _ => destruct (Z.eqb_spec a b)
    end; simpl in *; try lia; try congruence.

Lemma slug_char_range r : slug_char r -> 48 <= r <= 122 /\ ~ (65 <= r <= 90).
Proof.
  unfold slug_char, is_lower_alnum. rn_norm. intros [H | ->]; [| lia]. zbool.
Qed.

Lemma slug_char_not_separator r : slug_char r -> r <> filepath.Separator.
Proof. intros H%slug_char_range. unfold filepath.Separator. rn_norm. lia. Qed.

Section Slugify.
Context `{unicode.CaseTables}.

Lemma fold_slugify_step l buf :
  fold_left slugify_step l buf = buf ++ flat_map (slugify_step []) l.
Proof.
  revert buf. induction l as [| r l IH]; intros buf; simpl.
  - by rewrite app_nil_r.
  - rewrite IH, app_assoc. f_equal.
    unfold slugify_step. repeat case_match; simpl; by rewrite ?app_nil_r.
Qed.

Lemma slugify_flat_map s :
  slugify s = flat_map (slugify_step []) (strings.ToLower s).
Proof. unfold slugify. by rewrite fold_slugify_step. Qed.

Lemma ToLower_app s1 s2 :
  strings.ToLower (s1 ++ s2) = strings.ToLower s1 ++ strings.ToLower s2.
Proof. unfold strings.ToLower, strings.Map. apply flat_map_app. Qed.

Lemma slugify_app s1 s2 : slugify (s1 ++ s2) = slugify s1 ++ slugify s2.
Proof. rewrite !slugify_flat_map, ToLower_app. apply flat_map_app. Qed.

Lemma slugify_step_slug_char buf r : Forall slug_char buf -> Forall slug_char (slugify_step buf r).
Proof.
  intros Hb. unfold slugify_step.
  destruct (is_lower_alnum r) eqn:Ha; [| destruct (is_separator r)]; auto;
    apply Forall_app; split; auto; (constructor; [| constructor]).
  - by left.
  - by right.
Qed.

Lemma slugify_slug_chars s : Forall slug_char (slugify s).
Proof.
  unfold slugify. generalize (strings.ToLower s) as l.
  assert (Hnil : Forall slug_char []) by constructor.
  revert Hnil. generalize (@nil Z) as buf.
  intros buf Hb l. revert buf Hb.
  induction l as [| r l IH]; intros buf Hb; simpl; auto using slugify_step_slug_char.
Qed.

Lemma ToLower_slug_char r : slug_char r -> strings.ToLower [r] = [r].
Proof.
  intros Hr%slug_char_range.
  unfold strings.ToLower, strings.Map, unicode.ToLower, unicode.MaxASCII,
    utf8.ValidRune, utf8.surrogateMin, utf8.surrogateMax, utf8.MaxRune.
  simpl. rn_norm. zbool.
Qed.

Lemma ToLower_slug_chars s : Forall slug_char s -> strings.ToLower s = s.
Proof.
  induction 1 as [| r s Hr Hs IH]; [done |].
  change (r :: s) with ([r] ++ s).
  by rewrite ToLower_app, IH, ToLower_slug_char.
Qed.

Lemma slugify_step_fix r : slug_char r -> slugify_step [] r = [r].
Proof.
  unfold slugify_step. intros [-> | ->]; [done |]. reflexivity.
Qed.

Lemma slugify_slug_chars_fix s : Forall slug_char s -> slugify s = s.
Proof.
  intros Hs. rewrite slugify_flat_map, ToLower_slug_chars by done.
  induction Hs as [| r s Hr Hs IH]; [done |].
  simpl. by rewrite slugify_step_fix, IH.
Qed.

Lemma ToLower_separator c : is_separator c = true -> strings.ToLower [c] = [c].
Proof.
  unfold is_separator, strings.ToLower, strings.Map, unicode.ToLower, unicode.MaxASCII,
    utf8.ValidRune, utf8.surrogateMin, utf8.surrogateMax, utf8.MaxRune.
  simpl. rn_norm. intros Hc. zbool.
Qed.

Lemma slugify_separator c : is_separator c = true -> slugify [c] = [rn "_"].
Proof.
  intros Hc. rewrite slugify_flat_map, ToLower_separator by done.
  simpl. unfold slugify_step. rewrite Hc.
  revert Hc. unfold is_separator, is_lower_alnum. rn_norm. zbool.
Qed.

Lemma slugify_kept c :
  is_lower_alnum (unicode.ToLower c) = true -> slugify [c] = [unicode.ToLower c].
Proof.
  intros Hc. rewrite slugify_flat_map.
  assert (strings.ToLower [c] = [unicode.ToLower c]) as ->.
  { unfold strings.ToLower, strings.Map. simpl.
    assert (slug_char (unicode.ToLower c)) as Hr%slug_char_range by (by left).
    unfold utf8.ValidRune, utf8.surrogateMin, utf8.surrogateMax, utf8.MaxRune.
    zbool. }
  simpl. unfold slugify_step. by rewrite Hc.
Qed.

Lemma slugify_dropped c :
  is_lower_alnum (unicode.ToLower c) = false ->
  is_separator (unicode.ToLower c) = false ->
  slugify [c] = [].
Proof.
  intros Ha Hs. rewrite slugify_flat_map.
  unfold strings.ToLower, strings.Map. simpl.
  destruct (unicode.ToLower c <? 0); [done |].
  destruct (utf8.ValidRune (unicode.ToLower c)); simpl; unfold slugify_step.
  - by rewrite Ha, Hs.
  - reflexivity.
Qed.
End Slugify.

(** ** File paths *)

Module filepath_facts.
Import filepath.

Local Arguments IsPathSeparator : simpl never.
Local Arguments Separator : simpl never.

Lemma IsPathSeparator_true c : IsPathSeparator c = true <-> c = Separator.
Proof. unfold IsPathSeparator. apply Z.eqb_eq. Qed.

Lemma IsPathSeparator_false c : IsPathSeparator c = false <-> c <> Separator.
Proof. unfold IsPathSeparator. apply Z.eqb_neq. Qed.

Lemma split_not_nil s : split s <> [].
Proof. destruct s as [| c s]; simpl; [done |]. repeat case_match; done. Qed.

Lemma split_nosep s : nosep s -> split s = [s].
Proof.
  induction 1 as [| c s Hc Hs IH]; [done |].
  simpl. apply IsPathSeparator_false in Hc. by rewrite Hc, IH.
Qed.

Lemma split_app_sep a b : split (a ++ Separator :: b) = split a ++ split b.
Proof.
  induction a as [| c a IH]; simpl.
  - done.
  - rewrite IH. destruct (IsPathSeparator c); [done |].
    destruct (split a) eqn:Ha; [by apply split_not_nil in Ha | done].
Qed.

Lemma last_separator p :
  nosep p \/ exists front e, p = front ++ Separator :: e /\ nosep e.
Proof.
  induction p as [| c p [Hp | (front & e & -> & He)]].
  - left. constructor.
  - destruct (decide (c = Separator)) as [-> | Hc].
    + right. by exists [], p.
    + left. by constructor.
  - right. by exists (c :: front), e.
Qed.

Lemma clean_step_real rooted out e : real_element e -> clean_step rooted out e = e :: out.
Proof.
  intros (? & ? & ? & _). unfold clean_step.
  by rewrite !bool_decide_eq_false_2.
Qed.

Lemma join_elements_snoc es e : join_elements (es ++ [e]) = with_separators es ++ e.
Proof.
  unfold join_elements. rewrite reverse_app, reverse_singleton. simpl.
  by rewrite reverse_involutive.
Qed.

Lemma with_separators_terminated es : sep_terminated (with_separators es).
Proof.
  unfold with_separators.
  destruct es as [| e es _] using rev_ind; [by left |].
  right. rewrite map_app, concat_app. simpl.
  exists (concat (map (fun e => e ++ [Separator]) es) ++ e).
  by rewrite app_nil_r, app_assoc.
Qed.

Lemma clean_front_terminated front : sep_terminated (clean_front front).
Proof.
  unfold clean_front.
  destruct (with_separators_terminated
              (reverse (fold_left (clean_step (is_rooted (front ++ [Separator])))
                          (split front) []))) as [-> | [x ->]].
  - rewrite app_nil_r. destruct (is_rooted _); [right; by exists [] | by left].
  - right. eexists. by rewrite app_assoc.
Qed.

Lemma Clean_front_real front e :
  real_element e -> Clean (front ++ Separator :: e) = clean_front front ++ e.
Proof.
  intros He. unfold Clean, clean_front.
  rewrite bool_decide_eq_false_2 by (by destruct front).
  assert (is_rooted (front ++ Separator :: e) = is_rooted (front ++ [Separator])) as ->
    by (by destruct front).
  rewrite split_app_sep, (split_nosep e) by apply He.
  rewrite fold_left_app. simpl. rewrite clean_step_real by done.
  rewrite reverse_cons, join_elements_snoc.
  destruct (is_rooted _); [done |].
  rewrite bool_decide_eq_false_2; done.
Qed.

Lemma Clean_real e : real_element e -> Clean e = e.
Proof.
  intros He. unfold Clean.
  destruct He as (Hne & Hd & Hdd & Hs).
  rewrite bool_decide_eq_false_2 by done.
  assert (is_rooted e = false) as ->.
  { destruct Hs as [| c s Hc _]; [done |]. by apply IsPathSeparator_false. }
  rewrite split_nosep by done. simpl.
  rewrite clean_step_real by done.
  rewrite bool_decide_eq_false_2 by done.
  apply (join_elements_snoc []).
Qed.

Lemma strip_trailing_nosep e : e <> [] -> nosep e -> strip_trailing e = e.
Proof.
  intros Hne Hs. induction Hs as [| c s Hc Hs IH]; [done |].
  simpl. destruct s as [| c' s].
  - simpl. by rewrite (proj2 (IsPathSeparator_false c)).
  - rewrite IH by done. done.
Qed.

Lemma strip_trailing_app x e : e <> [] -> nosep e -> strip_trailing (x ++ e) = x ++ e.
Proof.
  intros Hne Hs. induction x as [| c x IH]; simpl.
  - by apply strip_trailing_nosep.
  - rewrite IH. destruct (x ++ e) eqn:Hx; [| done].
    by apply app_eq_nil in Hx as [_ ?].
Qed.

Lemma existsb_nosep e : nosep e -> existsb IsPathSeparator e = false.
Proof.
  induction 1 as [| c s Hc Hs IH]; [done |].
  simpl. by rewrite IH, (proj2 (IsPathSeparator_false c)).
Qed.

Lemma last_element_nosep e : nosep e -> last_element e = e.
Proof.
  destruct 1 as [| c s Hc Hs]; [done |].
  simpl. by rewrite existsb_nosep, (proj2 (IsPathSeparator_false c)).
Qed.

Lemma last_element_app x e : nosep e -> last_element (x ++ Separator :: e) = e.
Proof.
  intros He. induction x as [| c x IH]; simpl.
  - by rewrite existsb_nosep.
  - rewrite IH. rewrite existsb_app. simpl.
    by rewrite orb_true_r.
Qed.

Lemma Base_terminated pre e :
  sep_terminated pre -> e <> [] -> nosep e -> Base (pre ++ e) = e.
Proof.
  intros Hpre Hne Hs. unfold Base.
  rewrite bool_decide_eq_false_2 by (intros [_ ?]%app_eq_nil; done).
  rewrite strip_trailing_app by done.
  destruct Hpre as [-> | [x ->]].
  - simpl. rewrite last_element_nosep by done. by rewrite bool_decide_eq_false_2.
  - rewrite <- app_assoc. simpl. rewrite last_element_app by done.
    by rewrite bool_decide_eq_false_2.
Qed.

Lemma Join_two dir e : e <> [] -> Join [dir; e] = Clean (joined dir e).
Proof.
  intros He. unfold joined. simpl.
  destruct (bool_decide (dir = [])); [| done].
  by rewrite bool_decide_eq_false_2.
Qed.

(** A real element joined to a directory is the last element of the
    path, behind the cleaned directory. *)
Lemma Join_real dir e :
  real_element e ->
  exists pre, sep_terminated pre /\ Join [dir; e] = pre ++ e.
Proof.
  intros He. rewrite Join_two by apply He. unfold joined.
  case_bool_decide.
  - exists []. split; [by left | by apply Clean_real].
  - exists (clean_front dir). split; [apply clean_front_terminated | by apply Clean_front_real].
Qed.

(** A suffix of three characters or more without a separator survives
    [Clean], whatever precedes it. *)
Lemma Clean_suffix p :
  exists pre, forall suf,
    nosep suf -> (2 < length suf)%nat -> Clean (p ++ suf) = pre ++ suf.
Proof.
  assert (Hreal : forall n suf, nosep n -> nosep suf -> (2 < length suf)%nat ->
                                real_element (n ++ suf)).
  { intros n suf Hn Hsuf Hlen.
    assert (2 < length (n ++ suf))%nat as Hl by (rewrite length_app; lia).
    repeat split; try (intros Heq; rewrite Heq in Hl; simpl in Hl; lia).
    by apply Forall_app. }
  destruct (last_separator p) as [Hp | (front & n & -> & Hn)].
  - exists p. intros suf Hsuf Hlen. by apply Clean_real, Hreal.
  - exists (clean_front front ++ n). intros suf Hsuf Hlen.
    rewrite <- !app_assoc. simpl. by rewrite Clean_front_real, app_assoc by auto.
Qed.
End filepath_facts.

(** ** File names of the artifacts *)

Lemma real_element_long e : nosep e -> (2 < length e)%nat -> real_element e.
Proof.
  intros Hs Hl.
  repeat split; try (intros Heq; rewrite Heq in Hl; simpl in Hl; lia). done.
Qed.

Lemma nosep_str_uint d : nosep (str (NilEmpty.string_of_uint d)).
Proof.
  unfold nosep, str. induction d; simpl; constructor; try done; by vm_compute.
Qed.

Lemma fmt_d_nosep z : nosep (fmt.d z).
Proof.
  unfold fmt.d. destruct (Z.to_int z) as [d | d]; simpl.
  - destruct d; try apply nosep_str_uint. repeat constructor. by vm_compute.
  - unfold nosep, str. simpl. constructor; [by vm_compute |].
    destruct d; try apply nosep_str_uint. repeat constructor. by vm_compute.
Qed.

Lemma nosep_slug s : Forall slug_char s -> nosep s.
Proof. intros Hs. eapply Forall_impl; [exact Hs |]. apply slug_char_not_separator. Qed.

Lemma nosep_type typ : nosep (migrationFileType_string typ).
Proof. destruct typ; unfold nosep; simpl; repeat constructor; by vm_compute. Qed.

Lemma script_name_real z slug typ :
  Forall slug_char slug -> real_element (script_name z slug typ).
Proof.
  intros Hs. apply real_element_long.
  - unfold script_name.
    apply Forall_app_2; [apply fmt_d_nosep |].
    apply Forall_app_2; [by repeat constructor |].
    apply Forall_app_2; [by apply nosep_slug |].
    apply Forall_app_2; [by repeat constructor | apply nosep_type].
  - unfold script_name. rewrite !length_app. destruct typ; simpl; lia.
Qed.

Lemma last_type_lock pre : last (pre ++ migrationFileType_string migrationLock) = Some (rn "n").
Proof.
  change (migrationFileType_string migrationLock) with (str "lock.jso" ++ [rn "n"]).
  by rewrite app_assoc, last_snoc.
Qed.

Lemma last_type_script pre typ :
  typ <> migrationLock -> last (pre ++ migrationFileType_string typ) = Some (rn "l").
Proof.
  destruct typ; [| | done]; intros _.
  - change (migrationFileType_string migrationUp) with (str "up.sq" ++ [rn "l"]).
    by rewrite app_assoc, last_snoc.
  - change (migrationFileType_string migrationDown) with (str "down.sq" ++ [rn "l"]).
    by rewrite app_assoc, last_snoc.
Qed.

(** The three files of a run are three different files, whatever the
    directory and the name of the generator. *)
Lemma artifacts_NoDup g t : NoDup (artifacts g t).
Proof.
  unfold artifacts, lockFile, migrationFile.
  set (stem := fmt.d (Time_Unix t) ++ str "_" ++ name g ++ str ".").
  assert (Hlock : exists pre, filepath.Join [dir g; migrationFileType_string migrationLock]
                              = pre ++ migrationFileType_string migrationLock).
  { rewrite filepath_facts.Join_two by done. unfold joined.
    destruct (filepath_facts.Clean_suffix
                (if bool_decide (dir g = []) then [] else dir g ++ [filepath.Separator]))
      as [pre Hpre].
    exists pre. rewrite <- Hpre; [| apply nosep_type | simpl; lia].
    case_bool_decide; [done |]. by rewrite <- app_assoc. }
  assert (Hscript : exists pre, forall typ,
             filepath.Join [dir g; fmt.d (Time_Unix t) ++ str "_" ++ name g ++ str "."
                                   ++ migrationFileType_string typ]
             = pre ++ migrationFileType_string typ).
  { destruct (filepath_facts.Clean_suffix
                (if bool_decide (dir g = []) then stem
                 else dir g ++ filepath.Separator :: stem)) as [pre Hpre].
    exists pre. intros typ.
    rewrite filepath_facts.Join_two.
    2:{ intros Heq. apply (f_equal length) in Heq. rewrite !length_app in Heq.
        simpl in Heq. lia. }
    unfold joined.
    rewrite <- Hpre; [| apply nosep_type | destruct typ; simpl; lia].
    unfold stem. case_bool_decide.
    - by rewrite <- !app_assoc.
    - f_equal. rewrite <- app_assoc. cbn [app]. by rewrite <- !app_assoc. }
  destruct Hlock as [pre0 ->]. destruct Hscript as [pre Hs]. rewrite !Hs.
  assert (Hne : forall typ, typ <> migrationLock ->
                  pre0 ++ migrationFileType_string migrationLock
                  <> pre ++ migrationFileType_string typ).
  { intros typ Htyp Heq. apply (f_equal last) in Heq.
    rewrite last_type_lock, last_type_script in Heq by done. by vm_compute in Heq. }
  repeat constructor.
  - rewrite !elem_of_cons, elem_of_nil.
    intros [Heq | [Heq | []]]; apply Hne in Heq; done.
  - rewrite !elem_of_cons, elem_of_nil. intros [Heq | []].
    apply app_inv_head in Heq. by vm_compute in Heq.
  - apply not_elem_of_nil.
Qed.

(** ** Runs of the writer *)

Lemma createFile_created p m w :
  exists evs,
    created p m (files w) (fst (createFile p m w)) evs (files (snd (createFile p m w)))
    /\ syscalls (snd (createFile p m w)) = syscalls w ++ evs
    /\ same_clock_console w (snd (createFile p m w)).
Proof.
  destruct w as [fs flts clk reads out sys].
  unfold createFile, same_clock_console.
  destruct (MarshalText m) as [data [e |]] eqn:Hm.
  { exists []. simpl. rewrite app_nil_r. split; [| done]. by eapply created_marshal_failed. }
  destruct flts as [| [f1 |] flts].
  - (* no fault pending *)
    eexists. cbn. rewrite lookup_insert_eq, insert_insert_eq. cbn.
    rewrite <- !app_assoc. cbn.
    split; [| done]. eapply created_ok; [done | by left].
  - eexists. cbn. split; [| done]. by eapply created_open_failed.
  - destruct flts as [| [f2 |] flts].
    + eexists. cbn. rewrite lookup_insert_eq, insert_insert_eq. cbn.
      rewrite <- !app_assoc. cbn.
      split; [| done]. eapply created_ok; [done | by left].
    + destruct flts as [| [f3 |] flts];
        (eexists; cbn; rewrite lookup_insert_eq, insert_insert_eq; cbn;
         rewrite <- !app_assoc; cbn;
         split; [| done]; eapply created_write_failed; [done |]).
      * by left.
      * right. by eexists.
      * by left.
    + destruct flts as [| [f3 |] flts];
        (eexists; cbn; rewrite lookup_insert_eq, insert_insert_eq; cbn;
         rewrite <- !app_assoc; cbn;
         split; [| done]; eapply created_ok; [done |]).
      * by left.
      * right. by eexists.
      * by left.
Qed.

Lemma close_event_name p c : close_event p c -> event_name c = p.
Proof. by intros [-> | [e ->]]. Qed.

Lemma created_names p m fs r evs fs' :
  created p m fs r evs fs' -> forall ev, ev ∈ evs -> event_name ev = p.
Proof.
  destruct 1; intros ev; rewrite ?elem_of_cons, elem_of_nil;
    intros Hev; destruct_or!; subst; try done; by apply close_event_name.
Qed.

Lemma created_ok_written p m fs evs fs' :
  created p m fs None evs fs' -> written p evs.
Proof.
  inversion 1; subst. eexists. rewrite !elem_of_cons. right. by left.
Qed.

Lemma created_ok_inv p m fs evs fs' :
  created p m fs None evs fs' ->
  exists data c, MarshalText m = (data, None) /\ close_event p c
                 /\ evs = [EvOpen p; EvWrite p data; c] /\ fs' = <[p := data]> fs.
Proof. inversion 1; subst. eauto 10. Qed.

Lemma created_frame p m fs r evs fs' :
  created p m fs r evs fs' -> forall q, q <> p -> fs' !! q = fs !! q.
Proof. destruct 1; intros q Hq; by rewrite ?lookup_insert_ne. Qed.

(** A refused open or write is what [createFile] reports, with the name of
    the file. *)
Lemma created_failure p m fs r evs fs' q ev :
  created p m fs r evs fs' -> ev ∈ evs -> write_failure q ev ->
  q = p
  /\ ((exists en, r = Some (errorString (str "error opening file: " ++ p ++ str ": "
                                        ++ Error (PathError (str "open") p en))))
      \/ (exists en, r = Some (errorString (str "error writing file: " ++ p ++ str ": "
                                           ++ Error (PathError (str "write") p en))))).
Proof.
  intros Hc Hev Hf.
  assert (q = p) as ->.
  { rewrite <- (created_names _ _ _ _ _ _ Hc ev Hev).
    by destruct Hf as [[e ->] | (d & e & ->)]. }
  split; [done |].
  destruct Hc as [| | data done en c Hm Hcl | data c Hm Hcl]; eauto.
  - by apply elem_of_nil in Hev.
  - exfalso. rewrite !elem_of_cons, elem_of_nil in Hev.
    destruct Hf as [[e ->] | (d & e & ->)], Hcl as [-> | [e' ->]];
      destruct_or!; done.
Qed.

Lemma createFile_unfold_write_files f rest w :
  write_files (f :: rest) w =
  match fst (createFile (fst f) (snd f) w) with
  | Some e => (Some e, snd (createFile (fst f) (snd f) w))
  | None => write_files rest (snd (createFile (fst f) (snd f) w))
  end.
Proof.
  simpl. unfold bind. destruct (createFile (fst f) (snd f) w) as [[e |] w']; done.
Qed.

Lemma write_files_wrote l w :
  exists evs,
    wrote l (files w) (fst (write_files l w)) evs (files (snd (write_files l w)))
    /\ syscalls (snd (write_files l w)) = syscalls w ++ evs
    /\ same_clock_console w (snd (write_files l w)).
Proof.
  revert w. induction l as [| [p m] rest IH]; intros w.
  - exists []. simpl. rewrite app_nil_r. repeat split. constructor.
  - rewrite createFile_unfold_write_files. simpl.
    destruct (createFile_created p m w) as (evs1 & Hc & Hsys & Hclk & Hreads & Hout).
    destruct (fst (createFile p m w)) as [e |].
    + exists evs1. simpl. repeat split; try done. by constructor.
    + destruct (IH (snd (createFile p m w))) as (evs2 & Hw & Hsys2 & Hclk2 & Hreads2 & Hout2).
      exists (evs1 ++ evs2). repeat split; try congruence.
      * by econstructor.
      * by rewrite Hsys2, Hsys, app_assoc.
Qed.

Lemma wrote_names l fs r evs fs' :
  wrote l fs r evs fs' -> forall ev, ev ∈ evs -> event_name ev ∈ l.*1.
Proof.
  induction 1 as [| p m rest fs e evs fs' Hc | p m rest fs evs1 fs1 r evs2 fs2 Hc Hw IH];
    intros ev Hev; simpl.
  - by apply elem_of_nil in Hev.
  - rewrite (created_names _ _ _ _ _ _ Hc ev Hev). by left.
  - apply elem_of_app in Hev as [Hev | Hev].
    + rewrite (created_names _ _ _ _ _ _ Hc ev Hev). by left.
    + right. by apply IH.
Qed.

Lemma wrote_frame l fs r evs fs' :
  wrote l fs r evs fs' -> forall q, q ∉ l.*1 -> fs' !! q = fs !! q.
Proof.
  induction 1 as [| p m rest fs e evs fs' Hc | p m rest fs evs1 fs1 r evs2 fs2 Hc Hw IH];
    intros q Hq; simpl in Hq.
  - done.
  - eapply created_frame; [done |]. intros ->. apply Hq. by left.
  - rewrite IH by (intros ?; apply Hq; by right).
    eapply created_frame; [done |]. intros ->. apply Hq. by left.
Qed.

Lemma prefix_app_cases {A} (tr l1 l2 : list A) :
  tr `prefix_of` l1 ++ l2 ->
  tr `prefix_of` l1 \/ exists tr2, tr = l1 ++ tr2 /\ tr2 `prefix_of` l2.
Proof.
  revert tr. induction l1 as [| x l1 IH]; intros tr Hp; simpl in Hp.
  - right. by exists tr.
  - destruct tr as [| y tr]; [left; apply prefix_nil |].
    apply prefix_cons_inv_1 in Hp as Hxy. subst y.
    apply prefix_cons_inv_2 in Hp.
    destruct (IH tr Hp) as [Hl | (tr2 & -> & H2)].
    + left. by apply prefix_cons.
    + right. by exists tr2.
Qed.

Lemma written_app_l p tr1 tr2 : written p tr1 -> written p (tr1 ++ tr2).
Proof. intros [d Hd]. exists d. apply elem_of_app. by left. Qed.

Lemma written_app_r p tr1 tr2 : written p tr2 -> written p (tr1 ++ tr2).
Proof. intros [d Hd]. exists d. apply elem_of_app. by right. Qed.

(** The loop touches a file only after it has written all files before it
    in the list. *)
Lemma wrote_order l fs r evs fs' :
  wrote l fs r evs fs' -> NoDup l.*1 ->
  forall tr, tr `prefix_of` evs ->
  forall (i j : nat) p q, l.*1 !! i = Some p -> l.*1 !! j = Some q -> (i < j)%nat ->
    touched q tr -> written p tr.
Proof.
  induction 1 as [| p0 m rest fs e evs fs' Hc | p0 m rest fs evs1 fs1 r evs2 fs2 Hc Hw IH];
    intros Hnd tr Htr i j p q Hi Hj Hij (ev & Hev & Hname); simpl in *.
  - by apply prefix_nil_inv in Htr as ->; apply elem_of_nil in Hev.
  - exfalso. destruct j as [| j]; [lia |]. simpl in Hj.
    assert (event_name ev = p0) as Hp0.
    { eapply created_names; [done |]. destruct Htr as [k ->]. apply elem_of_app. by left. }
    apply NoDup_cons in Hnd as [Hnotin _]. apply Hnotin.
    rewrite <- Hp0, Hname. by eapply list_elem_of_lookup_2.
  - destruct j as [| j]; [lia |]. simpl in Hj.
    apply NoDup_cons in Hnd as [Hnotin Hnd].
    assert (Hq : q <> p0).
    { intros ->. apply Hnotin. by eapply list_elem_of_lookup_2. }
    destruct (prefix_app_cases _ _ _ Htr) as [Hl | (tr2 & -> & H2)].
    + exfalso. apply Hq. rewrite <- Hname.
      eapply created_names; [done |]. destruct Hl as [k ->]. apply elem_of_app. by left.
    + apply elem_of_app in Hev as [Hev | Hev].
      { exfalso. apply Hq. rewrite <- Hname. by eapply created_names. }
      destruct i as [| i]; simpl in Hi.
      * injection Hi as <-. apply written_app_l. by eapply created_ok_written.
      * apply written_app_r. eapply (IH Hnd tr2 H2 i j); eauto; [lia |].
        by exists ev.
Qed.

(** A refused open or write ends the loop: the error names the file, and
    no file behind it in the list is touched or changed. *)
Lemma wrote_failure l fs r evs fs' p ev :
  wrote l fs r evs fs' -> NoDup l.*1 -> ev ∈ evs -> write_failure p ev ->
  ((exists en, r = Some (errorString (str "error opening file: " ++ p ++ str ": "
                                     ++ Error (PathError (str "open") p en))))
   \/ (exists en, r = Some (errorString (str "error writing file: " ++ p ++ str ": "
                                        ++ Error (PathError (str "write") p en)))))
  /\ forall (i j : nat) q, l.*1 !! i = Some p -> l.*1 !! j = Some q -> (i < j)%nat ->
       ~ touched q evs /\ fs' !! q = fs !! q.
Proof.
  induction 1 as [| p0 m rest fs e evs fs' Hc | p0 m rest fs evs1 fs1 r evs2 fs2 Hc Hw IH];
    intros Hnd Hev Hf; simpl in *.
  - by apply elem_of_nil in Hev.
  - destruct (created_failure _ _ _ _ _ _ _ _ Hc Hev Hf) as [-> Hmsg].
    split; [done |]. intros i j q Hi Hj Hij.
    apply NoDup_cons in Hnd as [Hnotin _].
    assert (Hq : q <> p0).
    { intros ->. destruct j as [| j]; [lia |]. apply Hnotin.
      by eapply list_elem_of_lookup_2. }
    split.
    + intros (ev' & Hev' & Hname). apply Hq. rewrite <- Hname. by eapply created_names.
    + by eapply created_frame.
  - apply NoDup_cons in Hnd as [Hnotin Hnd].
    apply elem_of_app in Hev as [Hev | Hev].
    { destruct (created_failure _ _ _ _ _ _ _ _ Hc Hev Hf) as [_ [[en Hen] | [en Hen]]];
        done. }
    destruct (IH Hnd Hev Hf) as [Hmsg Hlater]. split; [done |].
    assert (Hp : p ∈ rest.*1).
    { apply (wrote_names _ _ _ _ _ Hw) in Hev.
      by destruct Hf as [[e ->] | (d & e & ->)]. }
    intros i j q Hi Hj Hij.
    destruct i as [| i]; simpl in Hi; [by injection Hi as -> |].
    destruct j as [| j]; [lia |]. simpl in Hj.
    destruct (Hlater i j q Hi Hj ltac:(lia)) as [Hnt Hfs].
    assert (Hq : q <> p0).
    { intros ->. apply Hnotin. by eapply list_elem_of_lookup_2. }
    split.
    + intros (ev' & Hev' & Hname). apply elem_of_app in Hev' as [Hev' | Hev'].
      * apply Hq. rewrite <- Hname. by eapply created_names.
      * apply Hnt. by exists ev'.
    + rewrite Hfs. by eapply created_frame.
Qed.

(** ** Generate *)

Section Generate.
Context `{Methods}.

Lemma print_changes_same_io changes w : same_io w (snd (print_changes changes w)).
Proof.
  revert w. induction changes as [| c rest IH]; intros w; [done |].
  simpl. unfold bind, color_Printf, fmt_Println, print. simpl.
  destruct (IH {| files := files w; faults := faults w; clock := clock w;
                  clock_reads := clock_reads w;
                  stdout := (stdout w ++ [Colored [change_color c; Bold] (str " => ")])
                            ++ [Plain (Change_String c ++ nl)];
                  syscalls := syscalls w |}) as (? & ? & ? & ? & ?).
  done.
Qed.

Lemma printMigrationInfo_same_io g m w : same_io w (snd (printMigrationInfo g m w)).
Proof.
  unfold printMigrationInfo. case_bool_decide; [done |].
  unfold bind, fmt_Println, print. simpl.
  destruct (print_changes_same_io (Up m)
              {| files := files w; faults := faults w; clock := clock w;
                 clock_reads := clock_reads w;
                 stdout := stdout w ++ [Plain (changes_message ++ nl)];
                 syscalls := syscalls w |}) as (? & ? & ? & ? & ?).
  done.
Qed.

Lemma Generate_unfold g m w :
  Generate g m w =
  if bool_decide (length (Up m) = 0%nat) then (None, snd (printMigrationInfo g m w))
  else writeMigration g m (snd (printMigrationInfo g m w)).
Proof.
  unfold Generate, bind. destruct (printMigrationInfo g m w) as [[] w1].
  by case_bool_decide.
Qed.

Lemma writeMigration_unfold g m w :
  writeMigration g m w =
  write_files (migration_files g m (run_time g w))
    {| files := files w; faults := faults w; clock := clock w;
       clock_reads := snd (now g (clock w) (clock_reads w));
       stdout := stdout w; syscalls := syscalls w |}.
Proof.
  unfold writeMigration, bind, call_timestamper, run_time.
  by destruct (now g (clock w) (clock_reads w)) as [t reads].
Qed.

Lemma writeMigration_wrote g m w :
  wrote (migration_files g m (run_time g w)) (files w)
    (fst (writeMigration g m w)) (events_of (writeMigration g m) w)
    (files (snd (writeMigration g m w)))
  /\ clock_reads (snd (writeMigration g m w)) = snd (now g (clock w) (clock_reads w))
  /\ clock (snd (writeMigration g m w)) = clock w
  /\ stdout (snd (writeMigration g m w)) = stdout w.
Proof.
  unfold events_of. rewrite writeMigration_unfold.
  match goal with
  | |- context [write_files ?l ?w1] =>
      destruct (write_files_wrote l w1) as (evs & Hw & Hsys & Hclk & Hreads & Hout)
  end.
  cbn [files syscalls clock clock_reads stdout] in *.
  rewrite Hsys, drop_app_length. done.
Qed.

Lemma Generate_wrote g m w :
  Up m <> [] ->
  wrote (migration_files g m (run_time g w)) (files w)
    (fst (Generate g m w)) (events_of (Generate g m) w) (files (snd (Generate g m w)))
  /\ clock_reads (snd (Generate g m w)) = snd (now g (clock w) (clock_reads w)).
Proof.
  intros Hup. unfold events_of. rewrite Generate_unfold.
  rewrite bool_decide_eq_false_2 by (by destruct (Up m)).
  destruct (printMigrationInfo_same_io g m w) as (Hf & _ & Hc & Hr & Hs).
  destruct (writeMigration_wrote g m (snd (printMigrationInfo g m w)))
    as (Hw & Hreads & _).
  unfold events_of, run_time in Hw. rewrite Hf, Hc, Hr, Hs in Hw.
  rewrite Hc, Hr in Hreads. done.
Qed.

Lemma Generate_no_changes g m w :
  Up m = [] ->
  Generate g m w =
  (None, {| files := files w; faults := faults w; clock := clock w;
            clock_reads := clock_reads w;
            stdout := stdout w ++ [Plain (no_changes_message ++ nl)];
            syscalls := syscalls w |}).
Proof.
  intros Hup. rewrite Generate_unfold. unfold printMigrationInfo. by rewrite Hup.
Qed.

End Generate.

(** * The claims *)

(** ** Slugs *)

(** C6: for every migration name, the slug contains only characters of
    [a-z0-9_] and is in lower case; each space, underscore or hyphen of the
    name gives one [_], a character whose lower case is a letter of [a-z] or
    a digit gives that lower case, and every other character is dropped. *)
Theorem slugify_alphabet `{unicode.CaseTables} :
  (forall s, Forall (fun r => is_lower_alnum r = true \/ r = rn "_") (slugify s)
             /\ strings.ToLower (slugify s) = slugify s)
  /\ (forall s1 c s2, is_separator c = true ->
        slugify (s1 ++ c :: s2) = slugify s1 ++ [rn "_"] ++ slugify s2)
  /\ (forall s1 c s2, is_lower_alnum (unicode.ToLower c) = true ->
        slugify (s1 ++ c :: s2) = slugify s1 ++ [unicode.ToLower c] ++ slugify s2)
  /\ (forall s1 c s2, is_lower_alnum (unicode.ToLower c) = false ->
        is_separator (unicode.ToLower c) = false ->
        slugify (s1 ++ c :: s2) = slugify s1 ++ slugify s2)
  /\ (forall s1 c s2, c <= unicode.MaxASCII ->
        is_lower_alnum c = false -> is_separator c = false ->
        (rn "A" <=? c) && (c <=? rn "Z") = false ->
        slugify (s1 ++ c :: s2) = slugify s1 ++ slugify s2).
Proof.
  assert (Hsplit : forall s1 c s2, slugify (s1 ++ c :: s2) = slugify s1 ++ slugify [c] ++ slugify s2).
  { intros s1 c s2. change (c :: s2) with ([c] ++ s2). by rewrite !slugify_app. }
  repeat split.
  - apply slugify_slug_chars.
  - apply ToLower_slug_chars, slugify_slug_chars.
  - intros s1 c s2 Hc. by rewrite Hsplit, slugify_separator.
  - intros s1 c s2 Hc. by rewrite Hsplit, slugify_kept.
  - intros s1 c s2 Ha Hs. by rewrite Hsplit, slugify_dropped.
  - intros s1 c s2 Hascii Ha Hs Hu. rewrite Hsplit, slugify_dropped; [done | |];
      unfold unicode.ToLower; rewrite (proj2 (Z.leb_le _ _) Hascii), Hu; done.
Qed.

Lemma slugify_alphabet_witness :
  is_separator (rn "-") = true
  /\ @slugify sample_tables (str "Add" ++ rn "-" :: str "Users")
     = @slugify sample_tables (str "Add") ++ [rn "_"] ++ @slugify sample_tables (str "Users").
Proof.
  split; [reflexivity |].
  apply (proj1 (proj2 (@slugify_alphabet sample_tables)) (str "Add") (rn "-") (str "Users")).
  reflexivity.
Defined.

(** C10: [slugify] is idempotent: [slugify (slugify s) = slugify s] for
    every string [s]. *)
Theorem slugify_idempotent `{unicode.CaseTables} (s : list Z) :
  slugify (slugify s) = slugify s.
Proof. apply slugify_slug_chars_fix, slugify_slug_chars. Qed.

(** ** File names *)

(** C7: for every time [t] and migration name, the up and the down script
    are one file each, named [{unixTimestamp}_{slug}.up.sql] and
    [{unixTimestamp}_{slug}.down.sql] in the directory of the generator,
    the timestamp being the seconds since the epoch of [t] in decimal. *)
Theorem migrationFile_names `{unicode.CaseTables} (title directory : list Z) (t : Time) :
  let g := NewMigrationGenerator title directory in
  let stem := fmt.d (unix_sec t) ++ str "_" ++ slugify title in
  migrationFile g migrationUp t = filepath.Join [directory; stem ++ str ".up.sql"]
  /\ migrationFile g migrationDown t = filepath.Join [directory; stem ++ str ".down.sql"]
  /\ filepath.Base (migrationFile g migrationUp t) = stem ++ str ".up.sql"
  /\ filepath.Base (migrationFile g migrationDown t) = stem ++ str ".down.sql"
  /\ migrationFile g migrationUp t <> migrationFile g migrationDown t.
Proof.
  intros g stem.
  assert (Hname : forall typ,
             migrationFile g typ t
             = filepath.Join [directory; stem ++ str "." ++ migrationFileType_string typ]).
  { intros typ. unfold migrationFile, stem. simpl name. simpl dir.
    unfold Time_Unix. by rewrite <- !app_assoc. }
  assert (Hbase : forall typ,
             filepath.Base (migrationFile g typ t)
             = stem ++ str "." ++ migrationFileType_string typ).
  { intros typ. rewrite Hname.
    assert (Hreal : real_element (stem ++ str "." ++ migrationFileType_string typ)).
    { unfold stem. rewrite <- !app_assoc.
      apply (script_name_real (unix_sec t) (slugify title) typ), slugify_slug_chars. }
    destruct (filepath_facts.Join_real directory _ Hreal) as (pre & Hpre & ->).
    apply filepath_facts.Base_terminated; [done | apply Hreal | apply Hreal]. }
  repeat split.
  - apply (Hname migrationUp).
  - apply (Hname migrationDown).
  - apply (Hbase migrationUp).
  - apply (Hbase migrationDown).
  - intros Heq. pose proof (artifacts_NoDup g t) as Hnd.
    unfold artifacts in Hnd. apply NoDup_cons in Hnd as [_ Hnd].
    apply NoDup_cons in Hnd as [Hnotin _]. apply Hnotin. rewrite <- Heq. by left.
Qed.

(** ** The lock file *)

Local Arguments str : simpl never.
Local Arguments filepath.Join : simpl never.


Lemma ioutil_ReadFile_read p w data :
  files w !! p = Some data ->
  hd None (faults w) = None ->
  ioutil_ReadFile p w
  = ((data, None),
     {| files := files w; faults := tail (faults w); clock := clock w;
        clock_reads := clock_reads w; stdout := stdout w;
        syscalls := syscalls w ++ [EvRead p] |}).
Proof.
  intros Hp Hflt. unfold ioutil_ReadFile, bind, record_event, next_fault, get_file. simpl.
  rewrite Hp. by destruct (faults w) as [| [f |] flts].
Qed.



(** C5: when the lock file exists and is read, and its contents do not
    parse as a schema, [LoadLock] returns an error and no schema. *)
Theorem LoadLock_corrupt_lock `{Methods} (g : MigrationGenerator) (w : World)
    (data : list Z) (partial_schema : DBSchema) (e : error) :
  files w !! lockFile g = Some data ->
  hd None (faults w) = None ->
  json_Unmarshal data new_DBSchema = (partial_schema, Some e) ->
  fst (LoadLock g w)
  = (None, Some (errorString (str "error unmarshaling lock schema: " ++ Error e))).
Proof.
  intros Hlock Hread Hparse. unfold LoadLock, bind. fold (lockFile g).
  rewrite (ioutil_ReadFile_read _ _ data) by done. simpl. by rewrite Hparse.
Qed.

Lemma LoadLock_corrupt_lock_witness :
  let w := sample_world {[ str "db/migrations/lock.json" := str "{tables" ]} [] in
  files w !! lockFile sample_generator = Some (str "{tables")
  /\ hd None (faults w) = None
  /\ @json_Unmarshal sample_methods (str "{tables") new_DBSchema
     = (new_DBSchema, Some (errorString (str "invalid character in lock")))
  /\ fst (@LoadLock sample_methods sample_generator w)
     = (None, Some (errorString (str "error unmarshaling lock schema: "
                                 ++ str "invalid character in lock"))).
Proof.
  intros w. split; [reflexivity |]. split; [reflexivity |]. split; [reflexivity |].
  apply (@LoadLock_corrupt_lock sample_methods sample_generator w (str "{tables")
           new_DBSchema (errorString (str "invalid character in lock")));
    reflexivity.
Defined.

(** ** Generate *)

(** C2: for a migration whose Up list is empty, [Generate] writes no
    artifact (it makes no I/O request and leaves the files as they are),
    prints the message that nothing will be generated, and returns no
    error. *)
Theorem Generate_no_changes_writes_nothing `{Methods}
    (g : MigrationGenerator) (m : Migration) (w : World) :
  Up m = [] ->
  fst (Generate g m w) = None
  /\ files (snd (Generate g m w)) = files w
  /\ events_of (Generate g m) w = []
  /\ stdout (snd (Generate g m w)) = stdout w ++ [Plain (no_changes_message ++ nl)].
Proof.
  intros Hup. unfold events_of. rewrite Generate_no_changes by done. simpl.
  by rewrite drop_all.
Qed.

Lemma Generate_no_changes_writes_nothing_witness :
  let m := {| Up := []; Down := []; Lock := new_DBSchema |} in
  Up m = []
  /\ fst (@Generate sample_methods sample_generator m (sample_world ∅ [])) = None
  /\ files (snd (@Generate sample_methods sample_generator m (sample_world ∅ []))) = ∅.
Proof.
  intros m. split; [reflexivity |].
  destruct (@Generate_no_changes_writes_nothing sample_methods sample_generator m
              (sample_world ∅ []) eq_refl) as (Hr & Hf & _).
  split; [exact Hr | exact Hf].
Defined.

(** C4: for a migration whose Up list is not empty, a [Generate] that
    returns no error has written three artifacts and no other: the lock
    snapshot, the down script and the up script, three different files that
    hold the marshalled lock, Down list and Up list. *)
Theorem Generate_persists_three_artifacts `{Methods}
    (g : MigrationGenerator) (m : Migration) (w : World) :
  Up m <> [] ->
  fst (Generate g m w) = None ->
  let t := run_time g w in
  exists lockdata downdata updata,
    DBSchema_MarshalText (Lock m) = (lockdata, None)
    /\ ChangeSet_MarshalText (Down m) = (downdata, None)
    /\ ChangeSet_MarshalText (Up m) = (updata, None)
    /\ writes (events_of (Generate g m) w)
       = [(lockFile g, lockdata);
          (migrationFile g migrationDown t, downdata);
          (migrationFile g migrationUp t, updata)]
    /\ files (snd (Generate g m w))
       = <[migrationFile g migrationUp t := updata]>
           (<[migrationFile g migrationDown t := downdata]>
              (<[lockFile g := lockdata]> (files w)))
    /\ NoDup (artifacts g t)
    /\ Forall (fun ev => event_name ev ∈ artifacts g t) (events_of (Generate g m) w).
Proof.
  intros Hup Hok t.
  destruct (Generate_wrote g m w Hup) as [Hw _]. fold t in Hw. rewrite Hok in Hw.
  assert (Hnames : Forall (fun ev => event_name ev ∈ artifacts g t)
                     (events_of (Generate g m) w)).
  { apply Forall_forall. intros ev Hev. by apply (wrote_names _ _ _ _ _ Hw). }
  revert Hw Hnames. generalize (events_of (Generate g m) w) as evs.
  generalize (files (snd (Generate g m w))) as fs'. intros fs' evs Hw Hnames.
  unfold migration_files in Hw.
  inversion Hw as [| | ? ? ? ? evs1 fs1 ? evs2 ? Hc1 Hw2]; subst.
  inversion Hw2 as [| | ? ? ? ? evs3 fs3 ? evs4 ? Hc2 Hw3]; subst.
  inversion Hw3 as [| | ? ? ? ? evs5 fs5 ? evs6 ? Hc3 Hw4]; subst.
  inversion Hw4; subst.
  apply created_ok_inv in Hc1 as (d1 & c1 & Hm1 & Hcl1 & -> & ->).
  apply created_ok_inv in Hc2 as (d2 & c2 & Hm2 & Hcl2 & -> & ->).
  apply created_ok_inv in Hc3 as (d3 & c3 & Hm3 & Hcl3 & -> & ->).
  exists d1, d2, d3. repeat split; try done.
  - destruct Hcl1 as [-> | [? ->]], Hcl2 as [-> | [? ->]], Hcl3 as [-> | [? ->]]; done.
  - apply artifacts_NoDup.
Qed.

Lemma Generate_persists_three_artifacts_witness :
  let w := sample_world ∅ [] in
  Up sample_migration <> []
  /\ fst (@Generate sample_methods sample_generator sample_migration w) = None
  /\ files (snd (@Generate sample_methods sample_generator sample_migration w))
     = <[str "db/migrations/1700000000_add_users.up.sql" := str "create table users" ++ nl]>
         (<[str "db/migrations/1700000000_add_users.down.sql" := str "drop table users" ++ nl]>
            (<[str "db/migrations/lock.json" := str "{users;}"]> ∅)).
Proof.
  intros w. split; [discriminate |]. split; [reflexivity |].
  destruct (@Generate_persists_three_artifacts sample_methods sample_generator
              sample_migration w ltac:(discriminate) eq_refl)
    as (d1 & d2 & d3 & H1 & H2 & H3 & _ & Hfiles & _).
  injection H1 as <-. injection H2 as <-. injection H3 as <-.
  exact Hfiles.
Defined.

(** C8, as the code has it: when the system refuses to open or to write
    one of the three artifacts, [Generate] returns an error whose message
    names the file of that artifact, and it stops there: no artifact behind
    it in the order of writing is touched, and the files of those artifacts
    are as before. *)
Theorem Generate_reports_write_failure `{Methods}
    (g : MigrationGenerator) (m : Migration) (w : World) (p : list Z) (ev : Event) :
  ev ∈ events_of (Generate g m) w ->
  write_failure p ev ->
  ((exists en, fst (Generate g m w)
               = Some (errorString (str "error opening file: " ++ p ++ str ": "
                                    ++ Error (PathError (str "open") p en))))
   \/ (exists en, fst (Generate g m w)
                  = Some (errorString (str "error writing file: " ++ p ++ str ": "
                                       ++ Error (PathError (str "write") p en)))))
  /\ p ∈ artifacts g (run_time g w)
  /\ forall (i j : nat) q,
       artifacts g (run_time g w) !! i = Some p ->
       artifacts g (run_time g w) !! j = Some q ->
       (i < j)%nat ->
       ~ touched q (events_of (Generate g m) w)
       /\ files (snd (Generate g m w)) !! q = files w !! q.
Proof.
  intros Hev Hf.
  destruct (decide (Up m = [])) as [Hup | Hup].
  { exfalso. revert Hev. unfold events_of. rewrite Generate_no_changes by done.
    simpl. rewrite drop_all. apply not_elem_of_nil. }
  destruct (Generate_wrote g m w Hup) as [Hw _].
  pose proof (artifacts_NoDup g (run_time g w)) as Hnd.
  destruct (wrote_failure _ _ _ _ _ p ev Hw Hnd Hev Hf) as [Hmsg Hlater].
  split; [done |]. split; [| done].
  apply (wrote_names _ _ _ _ _ Hw) in Hev.
  by destruct Hf as [[e ->] | (d & e & ->)].
Qed.

Lemma Generate_reports_write_failure_witness :
  let w := sample_world ∅ [None; None; None; None; Some {| errno := ENOSPC; partial := 4 |}] in
  let down := str "db/migrations/1700000000_add_users.down.sql" in
  let up := str "db/migrations/1700000000_add_users.up.sql" in
  let ev := EvWriteFailed down (str "drop") ENOSPC in
  ev ∈ events_of (@Generate sample_methods sample_generator sample_migration) w
  /\ write_failure down ev
  /\ fst (@Generate sample_methods sample_generator sample_migration w)
     = Some (errorString
               (str "error writing file: db/migrations/1700000000_add_users.down.sql: "
                ++ str "write db/migrations/1700000000_add_users.down.sql: "
                ++ str "no space left on device"))
  /\ ~ touched up (events_of (@Generate sample_methods sample_generator sample_migration) w)
  /\ files (snd (@Generate sample_methods sample_generator sample_migration w)) !! up = None.
Proof.
  intros w down up ev.
  assert (H1 : ev ∈ events_of (@Generate sample_methods sample_generator sample_migration) w).
  { apply (list_elem_of_lookup_2 _ 4%nat). reflexivity. }
  assert (H2 : write_failure down ev).
  { right. exists (str "drop"), ENOSPC. reflexivity. }
  split; [exact H1 |]. split; [exact H2 |]. split; [reflexivity |].
  destruct (@Generate_reports_write_failure sample_methods sample_generator sample_migration
              w down ev H1 H2) as (_ & _ & Hlater).
  exact (Hlater 1%nat 2%nat up eq_refl eq_refl ltac:(lia)).
Defined.

(** C8, as the specification has it, fails on two runs. On the first the
    system refuses to close the lock file: [createFile] discards the result
    of the deferred [Close], and [Generate] returns no error. On the second
    the Down list does not marshal: [createFile] returns the error of
    [MarshalText] as it is, and its message names no file. *)
Lemma Generate_not_every_failure_reported :
  ~ @reports_every_failure sample_methods sample_generator sample_migration
      (sample_world ∅ [None; None; Some {| errno := EIO; partial := 0 |}])
  /\ ~ @reports_every_failure manual_methods sample_generator manual_migration
        (sample_world ∅ []).
Proof.
  split.
  - intros [Hrefused _].
    assert (Hnil : fst (@Generate sample_methods sample_generator sample_migration
                          (sample_world ∅ [None; None; Some {| errno := EIO; partial := 0 |}]))
                   = None) by (vm_compute; reflexivity).
    destruct (Hrefused (str "db/migrations/lock.json")
                (EvCloseFailed (str "db/migrations/lock.json") EIO))
      as [(e & He & _) _].
    + apply (list_elem_of_lookup_2 _ 2%nat). vm_compute. reflexivity.
    + right. right. by exists EIO.
    + rewrite Hnil in He. discriminate He.
  - intros [_ Hnames].
    assert (Herr : fst (@Generate manual_methods sample_generator manual_migration
                          (sample_world ∅ []))
                   = Some (errorString (str "unsupported change")))
      by (vm_compute; reflexivity).
    destruct (Hnames _ Herr) as (p & Hp & front & back & Hmsg).
    apply (f_equal length) in Hmsg. rewrite !length_app in Hmsg.
    assert (Hart : artifacts sample_generator
                     (run_time sample_generator (sample_world ∅ []))
                   = [str "db/migrations/lock.json";
                      str "db/migrations/1700000000_add_users.down.sql";
                      str "db/migrations/1700000000_add_users.up.sql"])
      by (vm_compute; reflexivity).
    rewrite Hart, !elem_of_cons, elem_of_nil in Hp.
    assert (Hlen : (23 <= length p)%nat).
    { destruct Hp as [-> | [-> | [-> | []]]]; vm_compute; lia. }
    assert (Hmsglen : length (Error (errorString (str "unsupported change"))) = 18%nat)
      by reflexivity.
    rewrite Hmsglen in Hmsg. lia.
Qed.

(** C9: a run of [writeMigration] reads the clock once, and every file it
    touches is named from that one reading; so the down script and the up
    script are [{unixTimestamp}_{slug}.down.sql] and
    [{unixTimestamp}_{slug}.up.sql] with the same timestamp and slug. *)
Theorem writeMigration_one_timestamp `{Methods}
    (g : MigrationGenerator) (m : Migration) (w : World) :
  let t := run_time g w in
  let w' := snd (writeMigration g m w) in
  let stem := fmt.d (Time_Unix t) ++ str "_" ++ name g in
  clock_reads w' = snd (now g (clock w) (clock_reads w))
  /\ (now g = time.Now -> t = clock w (clock_reads w) /\ clock_reads w' = S (clock_reads w))
  /\ Forall (fun ev => event_name ev ∈ artifacts g t) (events_of (writeMigration g m) w)
  /\ migrationFile g migrationDown t = filepath.Join [dir g; stem ++ str ".down.sql"]
  /\ migrationFile g migrationUp t = filepath.Join [dir g; stem ++ str ".up.sql"]
  /\ (Forall slug_char (name g) ->
      filepath.Base (migrationFile g migrationDown t) = stem ++ str ".down.sql"
      /\ filepath.Base (migrationFile g migrationUp t) = stem ++ str ".up.sql").
Proof.
  intros t w' stem.
  destruct (writeMigration_wrote g m w) as (Hw & Hreads & _).
  assert (Hname : forall typ,
             migrationFile g typ t
             = filepath.Join [dir g; stem ++ str "." ++ migrationFileType_string typ]).
  { intros typ. unfold migrationFile, stem. by rewrite <- !app_assoc. }
  split; [exact Hreads |]. split.
  { intros Hnow. unfold w', t, run_time. rewrite Hreads, Hnow. done. }
  split.
  { apply Forall_forall. intros ev Hev. by apply (wrote_names _ _ _ _ _ Hw). }
  split; [apply (Hname migrationDown) |]. split; [apply (Hname migrationUp) |].
  intros Hslug.
  assert (Hbase : forall typ,
             filepath.Base (migrationFile g typ t)
             = stem ++ str "." ++ migrationFileType_string typ).
  { intros typ. rewrite Hname.
    assert (Hreal : real_element (stem ++ str "." ++ migrationFileType_string typ)).
    { unfold stem. rewrite <- !app_assoc.
      by apply (script_name_real (Time_Unix t) (name g) typ). }
    destruct (filepath_facts.Join_real (dir g) _ Hreal) as (pre & Hpre & ->).
    apply filepath_facts.Base_terminated; [done | apply Hreal | apply Hreal]. }
  split; [apply (Hbase migrationDown) | apply (Hbase migrationUp)].
Qed.

Lemma writeMigration_one_timestamp_witness :
  let w := sample_world ∅ [] in
  let w' := snd (@writeMigration sample_methods sample_generator sample_migration w) in
  now sample_generator = time.Now
  /\ Forall slug_char (name sample_generator)
  /\ clock_reads w' = 1%nat
  /\ filepath.Base (migrationFile sample_generator migrationDown (run_time sample_generator w))
     = str "1700000000_add_users" ++ str ".down.sql"
  /\ filepath.Base (migrationFile sample_generator migrationUp (run_time sample_generator w))
     = str "1700000000_add_users" ++ str ".up.sql".
Proof.
  intros w w'.
  assert (H1 : now sample_generator = time.Now) by reflexivity.
  assert (H2 : Forall slug_char (name sample_generator))
    by apply (@slugify_slug_chars sample_tables).
  destruct (@writeMigration_one_timestamp sample_methods sample_generator sample_migration w)
    as (_ & Hnow & _ & _ & _ & Hbase).
  destruct (Hnow H1) as [_ Hreads]. destruct (Hbase H2) as [Hdown Hup].
  split; [exact H1 |]. split; [exact H2 |]. split; [exact Hreads |].
  split; [exact Hdown | exact Hup].
Defined.

(** C1, as the code has it: the lock file is the first artifact written. At
    every point of a run of [Generate], a request about the down script
    comes after the lock file is written whole, and a request about the up
    script after the lock file and the down script are written whole. *)
Theorem Generate_lock_written_first `{Methods}
    (g : MigrationGenerator) (m : Migration) (w : World) :
  lock_written_first g m w.
Proof.
  unfold lock_written_first. intros tr Htr.
  destruct (decide (Up m = [])) as [Hup | Hup].
  { assert (tr = []) as ->.
    { revert Htr. unfold events_of. rewrite Generate_no_changes by done.
      simpl. rewrite drop_all. apply prefix_nil_inv. }
    split; intros (ev & Hev & _); by apply elem_of_nil in Hev. }
  destruct (Generate_wrote g m w Hup) as [Hw _].
  pose proof (artifacts_NoDup g (run_time g w)) as Hnd.
  pose proof (wrote_order _ _ _ _ _ Hw Hnd tr Htr) as Hord.
  split.
  - intros Ht. exact (Hord 0%nat 1%nat _ _ eq_refl eq_refl ltac:(lia) Ht).
  - intros Ht. split.
    + exact (Hord 0%nat 2%nat _ _ eq_refl eq_refl ltac:(lia) Ht).
    + exact (Hord 1%nat 2%nat _ _ eq_refl eq_refl ltac:(lia) Ht).
Qed.

Lemma Generate_lock_written_first_witness :
  let w := sample_world ∅ [] in
  let tr := events_of (@Generate sample_methods sample_generator sample_migration) w in
  let lock := str "db/migrations/lock.json" in
  let down := str "db/migrations/1700000000_add_users.down.sql" in
  let up := str "db/migrations/1700000000_add_users.up.sql" in
  touched up tr /\ written lock tr /\ written down tr.
Proof.
  intros w tr lock down up.
  assert (Hup : touched up tr).
  { exists (EvOpen up). split; [| reflexivity].
    apply (list_elem_of_lookup_2 _ 6%nat). reflexivity. }
  split; [exact Hup |].
  destruct (@Generate_lock_written_first sample_methods sample_generator sample_migration
              w tr) as [_ Hfirst]; [reflexivity |].
  exact (Hfirst Hup).
Defined.

(** C1, as the specification has it, fails: on a run whose lock file is
    written and whose down script the system then refuses to open, the lock
    file is written and neither script is. *)
Lemma Generate_lock_not_written_last :
  ~ @lock_written_last sample_methods sample_generator sample_migration
      (sample_world ∅ [None; None; None; Some {| errno := EACCES; partial := 0 |}]).
Proof.
  intros Hlast.
  destruct (Hlast [EvOpen (str "db/migrations/lock.json");
                   EvWrite (str "db/migrations/lock.json") (str "{users;}");
                   EvClose (str "db/migrations/lock.json")]) as [[data Hdown] _].
  - by exists [EvOpenFailed (str "db/migrations/1700000000_add_users.down.sql") EACCES].
  - exists (str "{users;}"). apply (list_elem_of_lookup_2 _ 1%nat). reflexivity.
  - rewrite !elem_of_cons, elem_of_nil in Hdown. destruct_or!; done.
Qed.

(** * Further properties of the code *)

(** ** Slugs *)

Lemma flat_map_length_le {A B} (f : A -> list B) (l : list A) :
  (forall x, (length (f x) <= 1)%nat) -> (length (flat_map f l) <= length l)%nat.
Proof.
  intros Hf. induction l as [| x l IH]; simpl; [lia |].
  rewrite length_app. specialize (Hf x). lia.
Qed.

(** X1: a slug is never longer than the name it is made of (counted in
    characters): [slugify] writes at most one character for each character
    it reads. *)
Theorem slugify_not_longer `{unicode.CaseTables} (s : list Z) :
  (length (slugify s) <= length s)%nat.
Proof.
  rewrite slugify_flat_map.
  etransitivity; [apply flat_map_length_le | apply flat_map_length_le].
  - intros r. unfold slugify_step. repeat case_match; simpl; lia.
  - intros c. simpl. case_match; simpl; lia.
Qed.

(** X2: the slug of two names put one after the other is the two slugs put
    one after the other; [slugify] looks at one character at a time. *)
Theorem slugify_concat `{unicode.CaseTables} (s1 s2 : list Z) :
  slugify (s1 ++ s2) = slugify s1 ++ slugify s2.
Proof. apply slugify_app. Qed.

Lemma ToLower_ascii_upper `{unicode.CaseTables} (s : list Z) :
  strings.ToLower (map ascii_upper s) = strings.ToLower s.
Proof.
  induction s as [| c s IH]; [done |].
  change (map ascii_upper (c :: s)) with ([ascii_upper c] ++ map ascii_upper s).
  change (c :: s) with ([c] ++ s).
  rewrite !ToLower_app, IH. f_equal.
  unfold strings.ToLower, strings.Map. simpl. 
  assert (unicode.ToLower (ascii_upper c) = unicode.ToLower c) as ->; [| done].
  unfold unicode.ToLower, ascii_upper, unicode.MaxASCII. rn_norm. zbool.
Qed.

(** X3: [slugify] does not see the case of ASCII letters: a name and the
    same name with its letters [a-z] in upper case have the same slug. *)
Theorem slugify_ascii_case `{unicode.CaseTables} (s : list Z) :
  slugify (map ascii_upper s) = slugify s.
Proof. by rewrite !slugify_flat_map, ToLower_ascii_upper. Qed.

(** ** Names of the script files *)

Lemma rn_inj a b : rn a = rn b -> a = b.
Proof.
  unfold rn. intros Heq%N2Z.inj.
  by rewrite <- (ascii_N_embedding a), <- (ascii_N_embedding b), Heq.
Qed.

Lemma str_inj a b : str a = str b -> a = b.
Proof.
  unfold str. intros Heq.
  rewrite <- (string_of_list_ascii_of_string a), <- (string_of_list_ascii_of_string b).
  f_equal. revert Heq.
  generalize (list_ascii_of_string a) as la, (list_ascii_of_string b) as lb.
  induction la as [| x la IH]; intros [| y lb] Heq; simpl in Heq; try done.
  injection Heq as Hxy%rn_inj Hl%IH. by subst.
Qed.

Lemma fmt_d_inj z1 z2 : fmt.d z1 = fmt.d z2 -> z1 = z2.
Proof.
  unfold fmt.d. intros Heq%str_inj.
  assert (Hnn : forall z, Z.to_int z <> Decimal.Pos Decimal.Nil
                          /\ Z.to_int z <> Decimal.Neg Decimal.Nil).
  { intros [| p | p]; simpl; split; try done;
      intros [= Hp]; by apply DecimalPos.Unsigned.to_uint_nonnil in Hp. }
  apply DecimalZ.to_int_inj.
  assert (Some (Z.to_int z1) = Some (Z.to_int z2)) as [= ->]; [| done].
  rewrite <- (NilZero.isi (Z.to_int z1)), <- (NilZero.isi (Z.to_int z2)), Heq;
    try apply Hnn. done.
Qed.

Lemma uint_no_underscore d c :
  c ∈ str (NilEmpty.string_of_uint d) -> 48 <= c <= 57.
Proof.
  unfold str. induction d; simpl; rewrite ?elem_of_cons; try (by intros ?%elem_of_nil);
    (intros [-> | Hc]; [by vm_compute | by apply IHd]).
Qed.

Lemma fmt_d_chars z c : c ∈ fmt.d z -> 48 <= c <= 57 \/ c = rn "-".
Proof.
  unfold fmt.d.
  assert (Hu : forall d, c ∈ str (NilZero.string_of_uint d) -> 48 <= c <= 57).
  { intros d. destruct d; try apply uint_no_underscore.
    unfold str. simpl. rewrite elem_of_cons. intros [-> | ?%elem_of_nil]; by vm_compute. }
  destruct (Z.to_int z) as [d | d].
  - intros Hc. left. by apply (Hu d).
  - change (str (NilZero.string_of_int (Decimal.Neg d)))
      with (rn "-" :: str (NilZero.string_of_uint d)).
    rewrite elem_of_cons. intros [-> | Hc]; [by right | left; by apply (Hu d)].
Qed.

Lemma split_at_first {A} (x : A) (a b a' b' : list A) :
  a ++ x :: b = a' ++ x :: b' -> x ∉ a -> x ∉ a' -> a = a' /\ b = b'.
Proof.
  revert a'. induction a as [| y a IH]; intros [| y' a'] Heq Ha Ha'; simpl in Heq.
  - by injection Heq as ->.
  - injection Heq as <- _. exfalso. apply Ha'. by left.
  - injection Heq as -> _. exfalso. apply Ha. by left.
  - injection Heq as <- Heq.
    destruct (IH a' Heq) as [-> ->]; [| | done].
    + intros ?. apply Ha. by right.
    + intros ?. apply Ha'. by right.
Qed.

Lemma migrationFileType_string_inj typ typ' :
  migrationFileType_string typ = migrationFileType_string typ' -> typ = typ'.
Proof. destruct typ, typ'; intros Heq; try done; by vm_compute in Heq. Qed.

Lemma script_name_inj z s typ z' s' typ' :
  Forall slug_char s -> Forall slug_char s' ->
  script_name z s typ = script_name z' s' typ' ->
  z = z' /\ s = s' /\ typ = typ'.
Proof.
  intros Hs Hs' Heq. unfold script_name in Heq.
  change (str "_" ++ ?x) with (rn "_" :: x) in Heq.
  assert (Hd : forall z, rn "_" ∉ fmt.d z).
  { intros z0 [Hc | Hc]%fmt_d_chars; revert Hc; rn_norm; lia. }
  apply split_at_first in Heq as [Hz Heq]; [| apply Hd | apply Hd].
  apply fmt_d_inj in Hz.
  change (str "." ++ ?x) with (rn "." :: x) in Heq.
  assert (Hdot : forall l, Forall slug_char l -> rn "." ∉ l).
  { intros l Hl Hin. rewrite Forall_forall in Hl.
    apply Hl, slug_char_range in Hin. revert Hin. rn_norm. lia. }
  apply split_at_first in Heq as [Hslug Htyp]; auto.
  by apply migrationFileType_string_inj in Htyp.
Qed.

(** The directory that [Join] puts in front of a real element is the same
    for every element. *)
Lemma Join_real_uniform dir :
  exists pre, sep_terminated pre
              /\ forall e, real_element e -> filepath.Join [dir; e] = pre ++ e.
Proof.
  destruct (decide (dir = [])) as [-> | Hdir].
  - exists []. split; [by left |]. intros e He.
    rewrite filepath_facts.Join_two by apply He. by apply filepath_facts.Clean_real.
  - exists (clean_front dir). split; [apply filepath_facts.clean_front_terminated |].
    intros e He. rewrite filepath_facts.Join_two by apply He.
    unfold joined. rewrite bool_decide_eq_false_2 by done.
    by apply filepath_facts.Clean_front_real.
Qed.

Lemma lock_name_real : real_element (migrationFileType_string migrationLock).
Proof. apply real_element_long; [apply nosep_type | simpl; lia]. Qed.

(** X4: the lock file and the script files of a generator made by
    [NewMigrationGenerator] lie in one and the same directory: each path is
    that directory followed by [lock.json] or by the name of the script. So
    [LoadLock] reads the lock where [Generate] writes the scripts. *)
Theorem artifacts_same_directory `{unicode.CaseTables} (title directory : list Z) :
  let g := NewMigrationGenerator title directory in
  exists pre,
    sep_terminated pre
    /\ lockFile g = pre ++ str "lock.json"
    /\ forall typ t,
         migrationFile g typ t
         = pre ++ fmt.d (Time_Unix t) ++ str "_" ++ slugify title ++ str "."
               ++ migrationFileType_string typ.
Proof.
  intros g. destruct (Join_real_uniform directory) as (pre & Hpre & Hjoin).
  exists pre. split; [done |]. split.
  - apply (Hjoin _ lock_name_real).
  - intros typ t. apply (Hjoin (script_name (Time_Unix t) (slugify title) typ)).
    apply script_name_real, slugify_slug_chars.
Qed.

(** X5: two script files of one directory are the same file only for the
    same second, the same slug and the same direction: migrations made at
    different seconds or under names with different slugs never overwrite
    each other's scripts. *)
Theorem migrationFile_injective `{unicode.CaseTables}
    (title1 title2 directory : list Z) (typ1 typ2 : migrationFileType) (t1 t2 : Time) :
  migrationFile (NewMigrationGenerator title1 directory) typ1 t1
  = migrationFile (NewMigrationGenerator title2 directory) typ2 t2 ->
  Time_Unix t1 = Time_Unix t2 /\ slugify title1 = slugify title2 /\ typ1 = typ2.
Proof.
  intros Heq. destruct (Join_real_uniform directory) as (pre & _ & Hjoin).
  change (migrationFile (NewMigrationGenerator title1 directory) typ1 t1)
    with (filepath.Join [directory; script_name (Time_Unix t1) (slugify title1) typ1]) in Heq.
  change (migrationFile (NewMigrationGenerator title2 directory) typ2 t2)
    with (filepath.Join [directory; script_name (Time_Unix t2) (slugify title2) typ2]) in Heq.
  rewrite (Hjoin (script_name (Time_Unix t1) (slugify title1) typ1)),
    (Hjoin (script_name (Time_Unix t2) (slugify title2) typ2)) in Heq
    by (apply script_name_real, slugify_slug_chars).
  apply app_inv_head in Heq.
  apply script_name_inj in Heq; auto using slugify_slug_chars.
Qed.

Lemma migrationFile_injective_witness :
  let t := {| unix_sec := 1700000000; nsec := 5 |} in
  let t' := {| unix_sec := 1700000000; nsec := 900 |} in
  migrationFile (@NewMigrationGenerator sample_tables (str "Add Users") (str "db")) migrationUp t
  = migrationFile (@NewMigrationGenerator sample_tables (str "add-users") (str "db")) migrationUp t'
  /\ Time_Unix t = Time_Unix t'
  /\ @slugify sample_tables (str "Add Users") = @slugify sample_tables (str "add-users").
Proof.
  intros t t'.
  assert (Heq : migrationFile (@NewMigrationGenerator sample_tables (str "Add Users") (str "db"))
                  migrationUp t
                = migrationFile (@NewMigrationGenerator sample_tables (str "add-users") (str "db"))
                    migrationUp t') by reflexivity.
  split; [exact Heq |].
  destruct (@migrationFile_injective sample_tables _ _ _ _ _ _ _ Heq) as (Ht & Hs & _).
  split; [exact Ht | exact Hs].
Defined.

(** ** The lock file and [Build] *)

Section Lock.
Context `{Methods}.

Lemma ioutil_ReadFile_world p w :
  snd (ioutil_ReadFile p w)
  = {| files := files w; faults := tail (faults w); clock := clock w;
       clock_reads := clock_reads w; stdout := stdout w;
       syscalls := syscalls w ++ [EvRead p] |}.
Proof.
  unfold ioutil_ReadFile, bind, record_event, next_fault, get_file. simpl.
  destruct (files w !! p); [| done]. by destruct (faults w) as [| [f |] flts].
Qed.

Lemma LoadLock_unfold g w :
  LoadLock g w =
  (let (bytes, err) := fst (ioutil_ReadFile (lockFile g) w) in
   if os.IsNotExist err then (Some new_DBSchema, None)
   else match err with
        | Some e => (None, Some (errorString (str "error opening lock file: " ++ Error e)))
        | None =>
            let (schema, uerr) := json_Unmarshal bytes new_DBSchema in
            match uerr with
            | Some e =>
                (None, Some (errorString (str "error unmarshaling lock schema: " ++ Error e)))
            | None => (Some schema, None)
            end
        end,
   snd (ioutil_ReadFile (lockFile g) w)).
Proof.
  unfold LoadLock, bind. fold (lockFile g).
  destruct (ioutil_ReadFile (lockFile g) w) as [[bytes err] w1]. simpl.
  destruct (os.IsNotExist err); [done |].
  destruct err; [done |].
  destruct (json_Unmarshal bytes new_DBSchema) as [schema [e |]]; done.
Qed.

End Lock.

(** X6: when the lock file cannot be read for another reason than its
    absence, [LoadLock] returns no schema and the error of the read behind
    the words [error opening lock file: ]. *)
Theorem LoadLock_unreadable_lock `{Methods} (g : MigrationGenerator) (w : World)
    (data : list Z) (err : error) :
  fst (ioutil_ReadFile (lockFile g) w) = (data, Some err) ->
  os.IsNotExist (Some err) = false ->
  fst (LoadLock g w)
  = (None, Some (errorString (str "error opening lock file: " ++ Error err))).
Proof.
  intros Hread Hne. rewrite LoadLock_unfold. simpl. by rewrite Hread, Hne.
Qed.

Lemma LoadLock_unreadable_lock_witness :
  let w := sample_world {[ str "db/migrations/lock.json" := str "{}" ]}
             [Some {| errno := EACCES; partial := 0 |}] in
  let err := PathError (str "read") (str "db/migrations/lock.json") EACCES in
  fst (ioutil_ReadFile (lockFile sample_generator) w) = ([], Some err)
  /\ os.IsNotExist (Some err) = false
  /\ fst (@LoadLock sample_methods sample_generator w)
     = (None, Some (errorString
                      (str "error opening lock file: "
                       ++ str "read db/migrations/lock.json: permission denied"))).
Proof.
  intros w err. split; [reflexivity |]. split; [reflexivity |].
  apply (@LoadLock_unreadable_lock sample_methods sample_generator w [] err); reflexivity.
Defined.

(** X7: [LoadLock] returns either a schema and no error or an error and no
    schema; it changes no file, prints nothing, and the one I/O request it
    makes is a read of the lock file. *)
Theorem LoadLock_reads_only `{Methods} (g : MigrationGenerator) (w : World) :
  ((exists schema, fst (LoadLock g w) = (Some schema, None))
   \/ (exists e, fst (LoadLock g w) = (None, Some e)))
  /\ files (snd (LoadLock g w)) = files w
  /\ stdout (snd (LoadLock g w)) = stdout w
  /\ events_of (LoadLock g) w = [EvRead (lockFile g)].
Proof.
  unfold events_of. rewrite LoadLock_unfold, ioutil_ReadFile_world. simpl.
  rewrite drop_app_length. repeat split.
  destruct (fst (ioutil_ReadFile (lockFile g) w)) as [bytes err].
  destruct (os.IsNotExist err); [left; by eexists |].
  destruct err; [right; by eexists |].
  destruct (json_Unmarshal bytes new_DBSchema) as [schema [e |]];
    [right | left]; by eexists.
Qed.



(** X9: when the lock file is there and read but does not parse, [Build]
    returns no migration and the error of [LoadLock], whatever the packages
    are: a corrupt lock is never diffed against. *)
Theorem Build_corrupt_lock `{Methods} `{Packages}
    (g : MigrationGenerator) (pkgs : list Package) (w : World)
    (data : list Z) (partial_schema : DBSchema) (e : error) :
  files w !! lockFile g = Some data ->
  hd None (faults w) = None ->
  json_Unmarshal data new_DBSchema = (partial_schema, Some e) ->
  fst (Build g pkgs w)
  = (None, Some (errorString (str "error unmarshaling lock schema: " ++ Error e))).
Proof.
  intros Hlock Hread Hparse. unfold Build, bind. rewrite LoadLock_unfold.
  rewrite (ioutil_ReadFile_read _ _ data) by done. simpl. by rewrite Hparse.
Qed.

Lemma Build_corrupt_lock_witness :
  let w := sample_world {[ str "db/migrations/lock.json" := str "{tables" ]} [] in
  files w !! lockFile sample_generator = Some (str "{tables")
  /\ hd None (faults w) = None
  /\ @json_Unmarshal sample_methods (str "{tables") new_DBSchema
     = (new_DBSchema, Some (errorString (str "invalid character in lock")))
  /\ fst (@Build sample_methods sample_packages sample_generator [str "users"] w)
     = (None, Some (errorString (str "error unmarshaling lock schema: "
                                 ++ str "invalid character in lock"))).
Proof.
  intros w. split; [reflexivity |]. split; [reflexivity |]. split; [reflexivity |].
  apply (@Build_corrupt_lock sample_methods sample_packages sample_generator
           [str "users"] w (str "{tables") new_DBSchema
           (errorString (str "invalid character in lock"))); reflexivity.
Defined.

(** ** More on [Generate] *)

Section MoreGenerate.
Context `{Methods}.

Lemma print_changes_stdout changes w :
  stdout (snd (print_changes changes w)) = stdout w ++ flat_map change_lines changes.
Proof.
  revert w. induction changes as [| c rest IH]; intros w.
  - simpl. by rewrite app_nil_r.
  - simpl print_changes. unfold bind, color_Printf, fmt_Println, print. simpl.
    rewrite IH. simpl. by rewrite <- !app_assoc.
Qed.

Lemma writes_app tr1 tr2 : writes (tr1 ++ tr2) = writes tr1 ++ writes tr2.
Proof. unfold writes. apply omap_app. Qed.

Lemma created_writes p m fs r evs fs' q data :
  created p m fs r evs fs' -> (q, data) ∈ writes evs ->
  q = p /\ r = None /\ fs' = <[p := data]> fs.
Proof.
  destruct 1 as [| | d done en c Hm Hcl | d c Hm Hcl]; simpl.
  - by intros ?%elem_of_nil.
  - by intros ?%elem_of_nil.
  - destruct Hcl as [-> | [e ->]]; simpl; by intros ?%elem_of_nil.
  - destruct Hcl as [-> | [e ->]]; simpl; rewrite elem_of_cons, elem_of_nil;
      intros [[= -> ->] | []]; done.
Qed.

(** An artifact written whole holds its data when the loop ends, whether
    the loop fails later or not. *)
Lemma wrote_written_stays l fs r evs fs' p data :
  wrote l fs r evs fs' -> NoDup l.*1 -> (p, data) ∈ writes evs -> fs' !! p = Some data.
Proof.
  induction 1 as [| p0 m rest fs e evs fs' Hc | p0 m rest fs evs1 fs1 r evs2 fs2 Hc Hw IH];
    intros Hnd Hin; simpl in *.
  - by apply elem_of_nil in Hin.
  - by destruct (created_writes _ _ _ _ _ _ _ _ Hc Hin) as (_ & ? & _).
  - apply NoDup_cons in Hnd as [Hnotin Hnd].
    rewrite writes_app in Hin. apply elem_of_app in Hin as [Hin | Hin].
    + destruct (created_writes _ _ _ _ _ _ _ _ Hc Hin) as (-> & _ & ->).
      rewrite (wrote_frame _ _ _ _ _ Hw) by done. apply lookup_insert_eq.
    + by apply IH.
Qed.

(** Where an error of the loop comes from. *)
Lemma wrote_error_origin l fs e evs fs' :
  wrote l fs (Some e) evs fs' ->
  exists p mar,
    (p, mar) ∈ l
    /\ ((exists data, MarshalText mar = (data, Some e))
        \/ (exists en, e = errorString (str "error opening file: " ++ p ++ str ": "
                                       ++ Error (PathError (str "open") p en)))
        \/ (exists en, e = errorString (str "error writing file: " ++ p ++ str ": "
                                       ++ Error (PathError (str "write") p en)))).
Proof.
  remember (Some e) as r eqn:Hr. intros Hw. revert Hr.
  induction Hw as [| p0 m rest fs e0 evs fs' Hc | p0 m rest fs evs1 fs1 r evs2 fs2 Hc Hw IH];
    intros Hr.
  - done.
  - injection Hr as ->. exists p0, m. split; [by left |].
    inversion Hc; subst; eauto.
  - destruct (IH Hr) as (p & mar & Hin & Hcases).
    exists p, mar. split; [by right | done].
Qed.

Lemma Generate_events_files g m w :
  (Up m = [] /\ fst (Generate g m w) = None /\ events_of (Generate g m) w = []
   /\ files (snd (Generate g m w)) = files w)
  \/ (Up m <> []
      /\ wrote (migration_files g m (run_time g w)) (files w)
           (fst (Generate g m w)) (events_of (Generate g m) w)
           (files (snd (Generate g m w)))).
Proof.
  destruct (decide (Up m = [])) as [Hup | Hup].
  - left. unfold events_of. rewrite Generate_no_changes by done. simpl.
    by rewrite drop_all.
  - right. split; [done |]. by apply Generate_wrote.
Qed.

Lemma fst_ioutil_ReadFile_ext p w1 w2 :
  files w1 = files w2 -> faults w1 = faults w2 ->
  fst (ioutil_ReadFile p w1) = fst (ioutil_ReadFile p w2).
Proof.
  intros Hf Hflt. unfold ioutil_ReadFile, bind, record_event, next_fault, get_file. simpl.
  rewrite Hf, Hflt. destruct (files w2 !! p); [| done].
  by destruct (faults w2) as [| [f |] flts].
Qed.

Lemma LoadLock_written_lock g w data schema :
  files w !! lockFile g = Some data ->
  hd None (faults w) = None ->
  json_Unmarshal data new_DBSchema = (schema, None) ->
  fst (LoadLock g w) = (Some schema, None).
Proof.
  intros Hlock Hread Hparse. rewrite LoadLock_unfold.
  rewrite (ioutil_ReadFile_read _ _ data) by done. simpl. by rewrite Hparse.
Qed.

End MoreGenerate.

(** X10: for a migration with changes, [Generate] prints the heading and
    then, for each change of the Up list in order, a coloured arrow (red
    for a dropped column or table, yellow for a manual change, green
    otherwise) and the text of the change; it prints this whatever becomes
    of the writing of the files. *)
Theorem Generate_prints_changes `{Methods}
    (g : MigrationGenerator) (m : Migration) (w : World) :
  Up m <> [] ->
  stdout (snd (Generate g m w))
  = stdout w ++ Plain (changes_message ++ nl) :: flat_map change_lines (Up m).
Proof.
  intros Hup. rewrite Generate_unfold.
  rewrite bool_decide_eq_false_2 by (by destruct (Up m)).
  destruct (writeMigration_wrote g m (snd (printMigrationInfo g m w))) as (_ & _ & _ & ->).
  unfold printMigrationInfo.
  rewrite bool_decide_eq_false_2 by (by destruct (Up m)).
  unfold bind, fmt_Println, print. simpl.
  rewrite print_changes_stdout. simpl. by rewrite <- app_assoc.
Qed.

Lemma Generate_prints_changes_witness :
  let m := {| Up := [DropTable (str "users"); ManualChange (str "rename"); AddColumn (str "t") (str "c")];
              Down := []; Lock := new_DBSchema |} in
  let w := sample_world ∅ [Some {| errno := EROFS; partial := 0 |}] in
  Up m <> []
  /\ stdout (snd (@Generate sample_methods sample_generator m w))
     = [Plain (changes_message ++ nl);
        Colored [FgRed; Bold] (str " => "); Plain (str "drop table users" ++ nl);
        Colored [FgYellow; Bold] (str " => "); Plain (str "manual change: rename" ++ nl);
        Colored [FgGreen; Bold] (str " => "); Plain (str "add column c to t" ++ nl)].
Proof.
  intros m w. split; [discriminate |].
  exact (@Generate_prints_changes sample_methods sample_generator m w ltac:(discriminate)).
Defined.

(** X11: [Generate] changes no file other than the lock file and the two
    scripts of its run, whether it succeeds or fails. *)
Theorem Generate_leaves_other_files `{Methods}
    (g : MigrationGenerator) (m : Migration) (w : World) (q : list Z) :
  q ∉ artifacts g (run_time g w) ->
  files (snd (Generate g m w)) !! q = files w !! q.
Proof.
  intros Hq.
  destruct (Generate_events_files g m w) as [(_ & _ & _ & ->) | [_ Hw]]; [done |].
  by apply (wrote_frame _ _ _ _ _ Hw).
Qed.

Lemma Generate_leaves_other_files_witness :
  let old := str "db/migrations/1600000000_init.up.sql" in
  let w := sample_world {[ old := str "create table t" ]} [] in
  (old ∉ artifacts sample_generator (run_time sample_generator w))
  /\ files (snd (@Generate sample_methods sample_generator sample_migration w)) !! old
     = Some (str "create table t").
Proof.
  intros old w.
  assert (Hq : old ∉ artifacts sample_generator (run_time sample_generator w)).
  { intros Hin. apply list_elem_of_In in Hin. vm_compute in Hin.
    repeat (destruct Hin as [Hin | Hin]; [discriminate Hin |]). exact Hin. }
  split; [exact Hq |].
  exact (@Generate_leaves_other_files sample_methods sample_generator sample_migration w old Hq).
Defined.

(** X12: an artifact that a run of [Generate] has written whole is in its
    file with its data when the run ends, also when the run fails on a
    later artifact: a lock file written before a script fails stays
    written. *)
Theorem Generate_written_stays `{Methods}
    (g : MigrationGenerator) (m : Migration) (w : World) (p data : list Z) :
  (p, data) ∈ writes (events_of (Generate g m) w) ->
  files (snd (Generate g m w)) !! p = Some data.
Proof.
  intros Hin.
  destruct (Generate_events_files g m w) as [(_ & _ & Hev & _) | [_ Hw]].
  - rewrite Hev in Hin. by apply elem_of_nil in Hin.
  - eapply wrote_written_stays; [done | apply artifacts_NoDup | done].
Qed.

Lemma Generate_written_stays_witness :
  let w := sample_world ∅ [None; None; None; Some {| errno := EACCES; partial := 0 |}] in
  let lock := str "db/migrations/lock.json" in
  ((lock, str "{users;}")
     ∈ writes (events_of (@Generate sample_methods sample_generator sample_migration) w))
  /\ (exists e, fst (@Generate sample_methods sample_generator sample_migration w) = Some e)
  /\ files (snd (@Generate sample_methods sample_generator sample_migration w)) !! lock
     = Some (str "{users;}").
Proof.
  intros w lock.
  assert (Hin : (lock, str "{users;}")
                  ∈ writes (events_of (@Generate sample_methods sample_generator
                                         sample_migration) w)).
  { apply (list_elem_of_lookup_2 _ 0%nat). reflexivity. }
  split; [exact Hin |]. split; [eexists; reflexivity |].
  exact (@Generate_written_stays sample_methods sample_generator sample_migration w _ _ Hin).
Defined.

(** X13: an error that [Generate] returns is the error of one of the three
    artifacts: the error that [MarshalText] gave for its content, returned
    as it is, or the refusal to open or to write its file, behind the words
    [error opening file: ] or [error writing file: ] and the name of the
    file. *)
Theorem Generate_error_origin `{Methods}
    (g : MigrationGenerator) (m : Migration) (w : World) (e : error) :
  fst (Generate g m w) = Some e ->
  exists p mar,
    (p, mar) ∈ migration_files g m (run_time g w)
    /\ ((exists data, MarshalText mar = (data, Some e))
        \/ (exists en, e = errorString (str "error opening file: " ++ p ++ str ": "
                                       ++ Error (PathError (str "open") p en)))
        \/ (exists en, e = errorString (str "error writing file: " ++ p ++ str ": "
                                       ++ Error (PathError (str "write") p en)))).
Proof.
  intros He.
  destruct (Generate_events_files g m w) as [(_ & Hnone & _) | [_ Hw]]; [congruence |].
  rewrite He in Hw. by eapply wrote_error_origin.
Qed.

Lemma Generate_error_origin_witness :
  let w := sample_world ∅ [Some {| errno := EROFS; partial := 0 |}] in
  let e := errorString (str "error opening file: db/migrations/lock.json: "
                        ++ str "open db/migrations/lock.json: read-only file system") in
  fst (@Generate sample_methods sample_generator sample_migration w) = Some e
  /\ exists p mar,
       (p, mar) ∈ @migration_files sample_methods sample_generator sample_migration
                    (run_time sample_generator w)
       /\ ((exists data, MarshalText mar = (data, Some e))
           \/ (exists en, e = errorString (str "error opening file: " ++ p ++ str ": "
                                          ++ Error (PathError (str "open") p en)))
           \/ (exists en, e = errorString (str "error writing file: " ++ p ++ str ": "
                                          ++ Error (PathError (str "write") p en)))).
Proof.
  intros w e. split; [reflexivity |].
  exact (@Generate_error_origin sample_methods sample_generator sample_migration w e eq_refl).
Defined.

(** X14: when the lock of a migration with changes does not marshal,
    [Generate] returns the error of [MarshalText] as it is, makes no I/O
    request and leaves every file as it was; the lock comes first, so
    neither script is marshalled or written. *)
Theorem Generate_lock_marshal_failure `{Methods}
    (g : MigrationGenerator) (m : Migration) (w : World) (data : list Z) (e : error) :
  Up m <> [] ->
  DBSchema_MarshalText (Lock m) = (data, Some e) ->
  fst (Generate g m w) = Some e
  /\ events_of (Generate g m) w = []
  /\ files (snd (Generate g m w)) = files w.
Proof.
  intros Hup Hm. destruct (Generate_wrote g m w Hup) as [Hw _].
  revert Hw. generalize (fst (Generate g m w)) as r,
    (events_of (Generate g m) w) as evs, (files (snd (Generate g m w))) as fs'.
  intros r evs fs' Hw. unfold migration_files in Hw.
  assert (Hc : created (lockFile g) (DBSchema_marshaler (Lock m)) (files w) r evs fs'
               \/ exists evs1 fs1, created (lockFile g) (DBSchema_marshaler (Lock m))
                                      (files w) None evs1 fs1).
  { inversion Hw; subst; eauto. }
  destruct Hc as [Hc | (evs1 & fs1 & Hc)]; inversion Hc; subst; simpl in *;
    try congruence.
  assert (e0 = e) as -> by congruence. done.
Qed.

Lemma Generate_lock_marshal_failure_witness :
  let m := {| Up := [CreateTable []]; Down := [DropTable []];
              Lock := {| Tables := [{| Table_Name := []; Columns := [] |}] |} |} in
  let w := sample_world ∅ [] in
  Up m <> []
  /\ @DBSchema_MarshalText strict_methods (Lock m)
     = ([], Some (errorString (str "table without a name")))
  /\ fst (@Generate strict_methods sample_generator m w)
     = Some (errorString (str "table without a name"))
  /\ files (snd (@Generate strict_methods sample_generator m w)) = ∅.
Proof.
  intros m w. split; [discriminate |]. split; [reflexivity |].
  destruct (@Generate_lock_marshal_failure strict_methods sample_generator m w []
              (errorString (str "table without a name")) ltac:(discriminate) eq_refl)
    as (Hr & _ & Hf).
  split; [exact Hr | exact Hf].
Defined.

(** X15: once a run of [Generate] has written the lock file whole, a
    [LoadLock] that reads it after the run returns what [json.Unmarshal]
    makes of the data written, and no error; this holds also when the run
    has failed on a script, so that the next [Build] starts from the new
    lock. *)
Theorem LoadLock_after_Generate `{Methods}
    (g : MigrationGenerator) (m : Migration) (w : World)
    (lockdata : list Z) (schema : DBSchema) :
  (lockFile g, lockdata) ∈ writes (events_of (Generate g m) w) ->
  hd None (faults (snd (Generate g m w))) = None ->
  json_Unmarshal lockdata new_DBSchema = (schema, None) ->
  fst (LoadLock g (snd (Generate g m w))) = (Some schema, None).
Proof.
  intros Hin Hread Hparse. apply (LoadLock_written_lock _ _ lockdata); try done.
  destruct (Generate_events_files g m w) as [(_ & _ & Hev & _) | [_ Hw]].
  - rewrite Hev in Hin. by apply elem_of_nil in Hin.
  - eapply wrote_written_stays; [done | apply artifacts_NoDup | done].
Qed.

Lemma LoadLock_after_Generate_witness :
  let m := {| Up := [DropTable (str "users")]; Down := [CreateTable (str "users")];
              Lock := new_DBSchema |} in
  let w := sample_world ∅ [None; None; None; Some {| errno := ENOSPC; partial := 0 |}] in
  let w' := snd (@Generate sample_methods sample_generator m w) in
  ((lockFile sample_generator, str "{}")
     ∈ writes (events_of (@Generate sample_methods sample_generator m) w))
  /\ hd None (faults w') = None
  /\ @json_Unmarshal sample_methods (str "{}") new_DBSchema = (Lock m, None)
  /\ (exists e, fst (@Generate sample_methods sample_generator m w) = Some e)
  /\ fst (@LoadLock sample_methods sample_generator w') = (Some (Lock m), None).
Proof.
  intros m w w'.
  assert (Hin : (lockFile sample_generator, str "{}")
                  ∈ writes (events_of (@Generate sample_methods sample_generator m) w)).
  { apply (list_elem_of_lookup_2 _ 0%nat). reflexivity. }
  split; [exact Hin |]. split; [reflexivity |]. split; [reflexivity |].
  split; [eexists; reflexivity |].
  exact (@LoadLock_after_Generate sample_methods sample_generator m w (str "{}") (Lock m)
           Hin eq_refl eq_refl).
Defined.

(** X16: a [Generate] that finds nothing to do does not change what
    [LoadLock] returns. *)
Theorem LoadLock_after_empty_Generate `{Methods}
    (g : MigrationGenerator) (m : Migration) (w : World) :
  Up m = [] ->
  fst (LoadLock g (snd (Generate g m w))) = fst (LoadLock g w).
Proof.
  intros Hup. rewrite Generate_no_changes by done. rewrite !LoadLock_unfold. simpl.
  by rewrite (fst_ioutil_ReadFile_ext _ _ w).
Qed.

Lemma LoadLock_after_empty_Generate_witness :
  let m := {| Up := []; Down := []; Lock := new_DBSchema |} in
  let w := sample_world {[ str "db/migrations/lock.json" := str "{}" ]} [] in
  Up m = []
  /\ fst (@LoadLock sample_methods sample_generator
            (snd (@Generate sample_methods sample_generator m w)))
     = (Some new_DBSchema, None).
Proof.
  intros m w. split; [reflexivity |].
  rewrite (@LoadLock_after_empty_Generate sample_methods sample_generator m w eq_refl).
  reflexivity.
Defined.

(** X17: after a run of [Generate] that has written the lock file whole, a
    [Build] that reads it makes its migration from the schema of that lock
    file to the schema of the packages. *)
Theorem Build_after_Generate `{Methods} `{Packages}
    (g : MigrationGenerator) (m : Migration) (w : World) (pkgs : list Package)
    (lockdata : list Z) (schema : DBSchema) (new : option DBSchema) :
  (lockFile g, lockdata) ∈ writes (events_of (Generate g m) w) ->
  hd None (faults (snd (Generate g m w))) = None ->
  json_Unmarshal lockdata new_DBSchema = (schema, None) ->
  SchemaFromPackages pkgs = (new, None) ->
  fst (Build g pkgs (snd (Generate g m w))) = NewMigration (Some schema) new.
Proof.
  intros Hin Hread Hparse Hpkgs. unfold Build, bind.
  assert (Hlock : fst (LoadLock g (snd (Generate g m w))) = (Some schema, None)).
  { apply (LoadLock_written_lock _ _ lockdata); try done.
    destruct (Generate_events_files g m w) as [(_ & _ & Hev & _) | [_ Hw]].
    - rewrite Hev in Hin. by apply elem_of_nil in Hin.
    - eapply wrote_written_stays; [done | apply artifacts_NoDup | done]. }
  destruct (LoadLock g (snd (Generate g m w))) as [[old err] w1]. simpl in Hlock.
  injection Hlock as -> ->. by rewrite Hpkgs.
Qed.

Lemma Build_after_Generate_witness :
  let m := {| Up := [DropTable (str "users")]; Down := [CreateTable (str "users")];
              Lock := new_DBSchema |} in
  let w := sample_world ∅ [] in
  let w' := snd (@Generate sample_methods sample_generator m w) in
  let new := Some {| Tables := [{| Table_Name := str "posts"; Columns := [] |}] |} in
  ((lockFile sample_generator, str "{}")
     ∈ writes (events_of (@Generate sample_methods sample_generator m) w))
  /\ hd None (faults w') = None
  /\ @json_Unmarshal sample_methods (str "{}") new_DBSchema = (new_DBSchema, None)
  /\ @SchemaFromPackages sample_packages [str "posts"] = (new, None)
  /\ fst (@Build sample_methods sample_packages sample_generator [str "posts"] w')
     = @NewMigration sample_packages (Some new_DBSchema) new.
Proof.
  intros m w w' new.
  assert (Hin : (lockFile sample_generator, str "{}")
                  ∈ writes (events_of (@Generate sample_methods sample_generator m) w)).
  { apply (list_elem_of_lookup_2 _ 0%nat). reflexivity. }
  split; [exact Hin |]. split; [reflexivity |]. split; [reflexivity |].
  split; [reflexivity |].
  exact (@Build_after_Generate sample_methods sample_packages sample_generator m w
           [str "posts"] (str "{}") new_DBSchema new Hin eq_refl eq_refl eq_refl).
Defined.

(** ** The generator of code *)

Section WriteFile.
Context `{Packages}.

Lemma writeFile_created g pkg w :
  hd None (faults w) = None ->
  writeFile g pkg w
  = writeFile_deferred g (filename g)
      (match fst (template_run g pkg w) with Returned err => err | Panicked _ => None end)
      (fst (template_run g pkg w)) (snd (template_run g pkg w)).
Proof.
  intros Hflt. unfold writeFile, template_run, os_Create, os_OpenFile, bind, next_fault.
  destruct (faults w) as [| [f |] flts]; try done; simpl;
    by destruct (Base_Execute _ _ _) as [out w2].
Qed.

Lemma writeFile_not_created g pkg w f :
  hd None (faults w) = Some f ->
  writeFile g pkg w
  = (Some (PathError (str "open") (filename g) (errno f)),
     {| files := files w; faults := tail (faults w); clock := clock w;
        clock_reads := clock_reads w; stdout := stdout w;
        syscalls := syscalls w ++ [EvOpenFailed (filename g) (errno f)] |}).
Proof.
  intros Hflt. unfold writeFile, os_Create, os_OpenFile, bind, next_fault.
  destruct (faults w) as [| [f' |] flts]; try done. simpl in *. by injection Hflt as ->.
Qed.

(** The deferred function on an outcome without error: the file is closed
    and nothing else happens. *)
Lemma writeFile_deferred_ok g file w2 :
  fst (writeFile_deferred g file None (Returned None) w2) = None
  /\ files (snd (writeFile_deferred g file None (Returned None) w2)) = files w2
  /\ stdout (snd (writeFile_deferred g file None (Returned None) w2)) = stdout w2.
Proof.
  unfold writeFile_deferred, bind, File_Close, bind, next_fault, record_event. simpl.
  by destruct (faults w2) as [| [f |] flts].
Qed.

Lemma File_Close_frame f w :
  files (snd (File_Close f w)) = files w
  /\ faults (snd (File_Close f w)) = tail (faults w)
  /\ stdout (snd (File_Close f w)) = stdout w.
Proof.
  unfold File_Close, bind, next_fault, record_event.
  by destruct (faults w) as [| [x |] flts].
Qed.

Lemma os_Remove_removed fname w c :
  files w !! fname = Some c -> hd None (faults w) = None ->
  fst (os_Remove fname w) = None
  /\ files (snd (os_Remove fname w)) = delete fname (files w)
  /\ stdout (snd (os_Remove fname w)) = stdout w.
Proof.
  intros Hc Hflt. unfold os_Remove, bind, next_fault, get_file, remove_file.
  cbv beta iota. cbn [files faults clock clock_reads stdout syscalls fst snd].
  rewrite Hc. by destruct (faults w) as [| [x |] flts].
Qed.

Lemma os_Remove_kept fname w :
  files w !! fname = None \/ hd None (faults w) <> None ->
  (exists e, fst (os_Remove fname w) = Some e)
  /\ files (snd (os_Remove fname w)) = files w
  /\ stdout (snd (os_Remove fname w)) = stdout w.
Proof.
  intros Hor. unfold os_Remove, bind, next_fault, get_file, remove_file.
  cbv beta iota. cbn [files faults clock clock_reads stdout syscalls fst snd].
  destruct (files w !! fname) as [c |] eqn:Hc.
  - destruct Hor as [? | Hflt]; [done |].
    destruct (faults w) as [| [x |] flts]; simpl in *; try done. eauto.
  - simpl. eauto.
Qed.

Lemma writeFile_deferred_error_unfold g file e w3 :
  writeFile_deferred g file (Some e) (Returned (Some e)) w3
  = (Some e,
     snd (match fst (os_Remove (filename g) (snd (File_Close file w3))) with
          | None => fmt_Println no_file_message
          | Some _ => fmt_Printf (not_deleted_message (filename g))
          end (snd (os_Remove (filename g) (snd (File_Close file w3)))))).
Proof.
  unfold writeFile_deferred, bind, ret. cbv beta iota.
  destruct (File_Close file w3) as [c w4]. cbv beta iota. cbn [fst snd].
  destruct (os_Remove (filename g) w4) as [[e' |] w5]; cbn [fst snd].
  - by destruct (fmt_Printf (not_deleted_message (filename g)) w5).
  - by destruct (fmt_Println no_file_message w5).
Qed.

(** The deferred function when the body has returned the error [e]. *)
Lemma writeFile_deferred_error g file e w3 :
  let w' := snd (writeFile_deferred g file (Some e) (Returned (Some e)) w3) in
  fst (writeFile_deferred g file (Some e) (Returned (Some e)) w3) = Some e
  /\ (is_Some (files w3 !! filename g) -> hd None (tail (faults w3)) = None ->
      files w' = delete (filename g) (files w3)
      /\ stdout w' = stdout w3 ++ [Plain (no_file_message ++ nl)])
  /\ (files w3 !! filename g = None \/ hd None (tail (faults w3)) <> None ->
      files w' = files w3
      /\ stdout w' = stdout w3 ++ [Plain (not_deleted_message (filename g))]).
Proof.
  cbv zeta. rewrite writeFile_deferred_error_unfold. cbn [fst snd].
  destruct (File_Close_frame file w3) as (Hf & Hflt & Hout).
  split; [done |]. split.
  - intros [c Hc] Hnone.
    destruct (os_Remove_removed (filename g) (snd (File_Close file w3)) c)
      as (-> & Hf' & Hout'); [by rewrite Hf | by rewrite Hflt |].
    unfold fmt_Println, print. cbn [fst snd files stdout].
    by rewrite Hf', Hout', Hf, Hout.
  - intros Hor.
    destruct (os_Remove_kept (filename g) (snd (File_Close file w3)))
      as ([e' ->] & Hf' & Hout'); [by rewrite Hf, Hflt |].
    unfold fmt_Printf, print. cbn [fst snd files stdout].
    by rewrite Hf', Hout', Hf, Hout.
Qed.

Lemma writeFile_deferred_panic g file r w2 :
  writeFile_deferred g file None (Panicked r) w2
  = writeFile_deferred g file (Some Errorf_debug_Stack)
      (Returned (Some Errorf_debug_Stack))
      (snd (fmt_Printf (panic_message (filename g) r) w2)).
Proof. reflexivity. Qed.

(** The deferred function on an outcome with an error or a panic. *)
Lemma writeFile_deferred_failed g file out w2 e :
  outcome_error out = Some e ->
  let err := match out with Returned err => err | Panicked _ => None end in
  let w' := snd (writeFile_deferred g file err out w2) in
  fst (writeFile_deferred g file err out w2) = Some e
  /\ (is_Some (files w2 !! filename g) -> hd None (tail (faults w2)) = None ->
      files w' = delete (filename g) (files w2)
      /\ stdout w' = stdout w2 ++ panic_lines g out ++ [Plain (no_file_message ++ nl)])
  /\ (files w2 !! filename g = None \/ hd None (tail (faults w2)) <> None ->
      files w' = files w2
      /\ stdout w' = stdout w2 ++ panic_lines g out
                     ++ [Plain (not_deleted_message (filename g))]).
Proof.
  intros He. destruct out as [[e' |] | r]; simpl in He; try done; injection He as <-.
  - apply writeFile_deferred_error.
  - cbv zeta. rewrite writeFile_deferred_panic.
    destruct (writeFile_deferred_error g file Errorf_debug_Stack
                (snd (fmt_Printf (panic_message (filename g) r) w2))) as (Hr & Hrm & Hkeep).
    simpl in *. rewrite <- !app_assoc in *. done.
Qed.

End WriteFile.

(** X18: when the system refuses to create the file, [writeFile] returns
    the error of [os.Create] as it is; the template is not run, no file is
    changed and nothing is printed. *)
Theorem writeFile_create_refused `{Packages}
    (g : Generator) (pkg : Package) (w : World) (f : Fault) :
  hd None (faults w) = Some f ->
  fst (writeFile g pkg w) = Some (PathError (str "open") (filename g) (errno f))
  /\ files (snd (writeFile g pkg w)) = files w
  /\ stdout (snd (writeFile g pkg w)) = stdout w
  /\ events_of (writeFile g pkg) w = [EvOpenFailed (filename g) (errno f)].
Proof.
  intros Hflt. unfold events_of. rewrite (writeFile_not_created _ _ _ f) by done.
  simpl. by rewrite drop_app_length.
Qed.

Lemma writeFile_create_refused_witness :
  let w := sample_world ∅ [Some {| errno := EACCES; partial := 0 |}] in
  hd None (faults w) = Some {| errno := EACCES; partial := 0 |}
  /\ fst (@writeFile sample_packages sample_file (str "users") w)
     = Some (PathError (str "open") (str "models/kallax.go") EACCES)
  /\ files (snd (@writeFile sample_packages sample_file (str "users") w)) = ∅.
Proof.
  intros w. split; [reflexivity |].
  destruct (@writeFile_create_refused sample_packages sample_file (str "users") w _ eq_refl)
    as (Hr & Hf & _).
  split; [exact Hr | exact Hf].
Defined.

(** X19: [writeFile] returns no error exactly when the file is created and
    the template returns no error and does not panic; the file is then as
    the template left it, and [writeFile] has printed nothing. *)
Theorem writeFile_returns_nil `{Packages} (g : Generator) (pkg : Package) (w : World) :
  (fst (writeFile g pkg w) = None
   <-> hd None (faults w) = None /\ fst (template_run g pkg w) = Returned None)
  /\ (fst (writeFile g pkg w) = None ->
      files (snd (writeFile g pkg w)) = files (snd (template_run g pkg w))
      /\ stdout (snd (writeFile g pkg w)) = stdout (snd (template_run g pkg w))).
Proof.
  destruct (hd None (faults w)) as [f |] eqn:Hflt.
  { rewrite (writeFile_not_created _ _ _ f) by done. simpl.
    split; [split |]; [done | by intros [? _] | done]. }
  rewrite writeFile_created by done.
  destruct (fst (template_run g pkg w)) as [[e |] | r] eqn:Hout.
  - destruct (writeFile_deferred_failed g (filename g) (Returned (Some e))
                (snd (template_run g pkg w)) e eq_refl) as (Hr & _).
    cbv zeta in Hr. rewrite Hr. split; [split |]; [done | by intros [_ ?] | done].
  - destruct (writeFile_deferred_ok g (filename g) (snd (template_run g pkg w)))
      as (Hr & Hf & Hs).
    rewrite Hr. done.
  - destruct (writeFile_deferred_failed g (filename g) (Panicked r)
                (snd (template_run g pkg w)) Errorf_debug_Stack eq_refl) as (Hr & _).
    cbv zeta in Hr. rewrite Hr. split; [split |]; [done | by intros [_ ?] | done].
Qed.

Lemma writeFile_returns_nil_witness :
  let w := sample_world ∅ [] in
  fst (@writeFile sample_packages sample_file (str "users") w) = None
  /\ files (snd (@writeFile sample_packages sample_file (str "users") w))
     = {[ str "models/kallax.go" := str "package users" ++ nl ]}.
Proof.
  intros w.
  assert (Hr : fst (@writeFile sample_packages sample_file (str "users") w) = None)
    by reflexivity.
  split; [exact Hr |].
  destruct (proj2 (@writeFile_returns_nil sample_packages sample_file (str "users") w) Hr)
    as [Hf _].
  exact Hf.
Defined.

(** X20: when the template returns an error or panics after the file is
    created, [writeFile] returns an error (that of the template, or the one
    made from the stack after a panic) and removes the file, unless the
    system refuses: the file is gone, the other files are as the template
    left them, and the last line printed says that no file was generated. *)
Theorem writeFile_failure_removes_file `{Packages}
    (g : Generator) (pkg : Package) (w : World) (e : error) :
  hd None (faults w) = None ->
  outcome_error (fst (template_run g pkg w)) = Some e ->
  is_Some (files (snd (template_run g pkg w)) !! filename g) ->
  hd None (tail (faults (snd (template_run g pkg w)))) = None ->
  fst (writeFile g pkg w) = Some e
  /\ files (snd (writeFile g pkg w)) !! filename g = None
  /\ files (snd (writeFile g pkg w)) = delete (filename g) (files (snd (template_run g pkg w)))
  /\ stdout (snd (writeFile g pkg w))
     = stdout (snd (template_run g pkg w)) ++ panic_lines g (fst (template_run g pkg w))
       ++ [Plain (no_file_message ++ nl)].
Proof.
  intros Hflt He Hfile Hrm. rewrite writeFile_created by done.
  destruct (writeFile_deferred_failed g (filename g) _ (snd (template_run g pkg w)) e He)
    as (Hr & Hremoved & _).
  destruct (Hremoved Hfile Hrm) as [Hf Hs].
  cbv zeta in *. rewrite Hr, Hf, Hs. repeat split. apply lookup_delete_eq.
Qed.

Lemma writeFile_failure_removes_file_witness :
  let w := sample_world {[ str "models/kallax.go" := str "package old" ]} [] in
  let e := errorString (str "bad package") in
  hd None (faults w) = None
  /\ @outcome_error sample_packages (fst (@template_run sample_packages sample_file (str "bad") w)) = Some e
  /\ is_Some (files (snd (@template_run sample_packages sample_file (str "bad") w))
              !! filename sample_file)
  /\ fst (@writeFile sample_packages sample_file (str "bad") w) = Some e
  /\ files (snd (@writeFile sample_packages sample_file (str "bad") w))
     !! str "models/kallax.go" = None.
Proof.
  intros w e.
  assert (H1 : hd None (faults w) = None) by reflexivity.
  assert (H2 : @outcome_error sample_packages (fst (@template_run sample_packages sample_file (str "bad") w))
               = Some e) by reflexivity.
  assert (H3 : is_Some (files (snd (@template_run sample_packages sample_file (str "bad") w))
                        !! filename sample_file)) by (exists []; reflexivity).
  destruct (@writeFile_failure_removes_file sample_packages sample_file (str "bad") w e
              H1 H2 H3 eq_refl) as (Hr & Hnone & _).
  split; [exact H1 |]. split; [exact H2 |]. split; [exact H3 |].
  split; [exact Hr | exact Hnone].
Defined.

(** X21: when the template fails and the system refuses to remove the
    file, [writeFile] still returns the error; the file stays as the
    template left it, and the last line printed says that the file could
    not be completed nor deleted. *)
Theorem writeFile_remove_refused `{Packages}
    (g : Generator) (pkg : Package) (w : World) (e : error) :
  hd None (faults w) = None ->
  outcome_error (fst (template_run g pkg w)) = Some e ->
  hd None (tail (faults (snd (template_run g pkg w)))) <> None ->
  fst (writeFile g pkg w) = Some e
  /\ files (snd (writeFile g pkg w)) = files (snd (template_run g pkg w))
  /\ stdout (snd (writeFile g pkg w))
     = stdout (snd (template_run g pkg w)) ++ panic_lines g (fst (template_run g pkg w))
       ++ [Plain (not_deleted_message (filename g))].
Proof.
  intros Hflt He Hrm. rewrite writeFile_created by done.
  destruct (writeFile_deferred_failed g (filename g) _ (snd (template_run g pkg w)) e He)
    as (Hr & _ & Hkept).
  destruct (Hkept (or_intror Hrm)) as [Hf Hs].
  cbv zeta in *. by rewrite Hr, Hf, Hs.
Qed.

Lemma writeFile_remove_refused_witness :
  let w := sample_world ∅ [None; None; Some {| errno := EACCES; partial := 0 |}] in
  let e := errorString (str "bad package") in
  hd None (faults w) = None
  /\ @outcome_error sample_packages (fst (@template_run sample_packages sample_file (str "bad") w)) = Some e
  /\ hd None (tail (faults (snd (@template_run sample_packages sample_file (str "bad") w))))
     <> None
  /\ fst (@writeFile sample_packages sample_file (str "bad") w) = Some e
  /\ files (snd (@writeFile sample_packages sample_file (str "bad") w))
     = {[ str "models/kallax.go" := [] ]}.
Proof.
  intros w e.
  assert (H1 : hd None (faults w) = None) by reflexivity.
  assert (H2 : @outcome_error sample_packages (fst (@template_run sample_packages sample_file (str "bad") w))
               = Some e) by reflexivity.
  assert (H3 : hd None (tail (faults (snd (@template_run sample_packages sample_file
                                             (str "bad") w)))) <> None) by discriminate.
  destruct (@writeFile_remove_refused sample_packages sample_file (str "bad") w e H1 H2 H3)
    as (Hr & Hf & _).
  split; [exact H1 |]. split; [exact H2 |]. split; [exact H3 |].
  split; [exact Hr | exact Hf].
Defined.

(** X22: a panic of the template does not leave [writeFile]: it is
    recovered, reported on the console with the name of the file and the
    value of the panic, and turned into the error made from the stack. *)
Theorem writeFile_recovers_panic `{Packages}
    (g : Generator) (pkg : Package) (w : World) (r : list Z) :
  hd None (faults w) = None ->
  fst (template_run g pkg w) = Panicked r ->
  fst (writeFile g pkg w) = Some Errorf_debug_Stack
  /\ exists last_line,
       stdout (snd (writeFile g pkg w))
       = stdout (snd (template_run g pkg w))
         ++ [Plain (panic_message (filename g) r); Plain last_line].
Proof.
  intros Hflt Hout. rewrite writeFile_created by done. rewrite Hout.
  destruct (writeFile_deferred_failed g (filename g) (Panicked r)
              (snd (template_run g pkg w)) Errorf_debug_Stack eq_refl)
    as (Hr & Hremoved & Hkept).
  cbv zeta in *. split; [done |].
  destruct (files (snd (template_run g pkg w)) !! filename g) as [c |] eqn:Hc.
  - destruct (hd None (tail (faults (snd (template_run g pkg w))))) as [x |] eqn:Hx.
    + destruct Hkept as [_ ->]; [by right |]. by eexists.
    + destruct Hremoved as [_ ->]; [done | done |]. by eexists.
  - destruct Hkept as [_ ->]; [by left |]. by eexists.
Qed.

Lemma writeFile_recovers_panic_witness :
  let w := sample_world ∅ [] in
  hd None (faults w) = None
  /\ fst (@template_run sample_packages sample_file [] w) = Panicked (str "no package")
  /\ fst (@writeFile sample_packages sample_file [] w)
     = Some (errorString (str "goroutine 1 [running]")).
Proof.
  intros w. split; [reflexivity |]. split; [reflexivity |].
  exact (proj1 (@writeFile_recovers_panic sample_packages sample_file [] w
                  (str "no package") eq_refl eq_refl)).
Defined.

(** ** [createFile] and the files it opens *)

Lemma createFile_events p m w :
  exists evs,
    events_of (createFile p m) w = evs
    /\ created p m (files w) (fst (createFile p m w)) evs (files (snd (createFile p m w))).
Proof.
  destruct (createFile_created p m w) as (evs & Hc & Hsys & _).
  exists evs. split; [| done]. unfold events_of. by rewrite Hsys, drop_app_length.
Qed.

(** X23: a [createFile] that returns no error has replaced the contents of
    the file by the marshalled text: what the file held before is gone,
    whatever its length, and no other file has changed. *)
Theorem createFile_overwrites (p : list Z) (m : TextMarshaler) (w : World) :
  fst (createFile p m w) = None ->
  exists data,
    MarshalText m = (data, None)
    /\ files (snd (createFile p m w)) = <[p := data]> (files w).
Proof.
  intros Hok. destruct (createFile_events p m w) as (evs & _ & Hc).
  rewrite Hok in Hc. apply created_ok_inv in Hc as (data & c & Hm & _ & _ & Hf).
  by exists data.
Qed.

Lemma createFile_overwrites_witness :
  let p := str "db/migrations/lock.json" in
  let w := sample_world {[ p := str "{users;posts;comments;}" ]} [] in
  let m := @DBSchema_marshaler sample_methods new_DBSchema in
  fst (createFile p m w) = None
  /\ files (snd (createFile p m w)) = {[ p := str "{}" ]}.
Proof.
  intros p w m.
  assert (Hok : fst (createFile p m w) = None) by reflexivity.
  split; [exact Hok |].
  destruct (createFile_overwrites p m w Hok) as (data & Hm & Hf).
  injection Hm as <-. rewrite Hf. apply insert_singleton_eq.
Defined.

(** X24: [createFile] closes every file it has opened, on success and on a
    refused write alike: when it has opened the file, the last request it
    makes is the close of that file. *)
Theorem createFile_closes_file (p : list Z) (m : TextMarshaler) (w : World) :
  EvOpen p ∈ events_of (createFile p m) w ->
  exists c, close_event p c /\ last (events_of (createFile p m) w) = Some c.
Proof.
  destruct (createFile_events p m w) as (evs & -> & Hc).
  destruct Hc as [| | data done en c Hm Hcl | data c Hm Hcl]; intros Hin.
  - by apply elem_of_nil in Hin.
  - rewrite elem_of_cons, elem_of_nil in Hin. by destruct Hin.
  - by exists c.
  - by exists c.
Qed.

Lemma createFile_closes_file_witness :
  let p := str "db/migrations/lock.json" in
  let w := sample_world ∅ [None; Some {| errno := ENOSPC; partial := 1 |}] in
  let m := @DBSchema_marshaler sample_methods new_DBSchema in
  (EvOpen p ∈ events_of (createFile p m) w)
  /\ (exists e, fst (createFile p m w) = Some e)
  /\ exists c, close_event p c /\ last (events_of (createFile p m) w) = Some c.
Proof.
  intros p w m.
  assert (Hin : EvOpen p ∈ events_of (createFile p m) w).
  { apply (list_elem_of_lookup_2 _ 0%nat). reflexivity. }
  split; [exact Hin |]. split; [eexists; reflexivity |].
  exact (createFile_closes_file p m w Hin).
Defined.

(** X25: [writeFile] closes the file it has created on every way out of
    the template (no error, an error, a panic): the close of the file is
    the last I/O request logged, after all those of the template. *)
Theorem writeFile_closes_file `{Packages} (g : Generator) (pkg : Package) (w : World) :
  hd None (faults w) = None ->
  exists c,
    close_event (filename g) c
    /\ syscalls (snd (writeFile g pkg w)) = syscalls (snd (template_run g pkg w)) ++ [c].
Proof.
  intros Hflt. rewrite writeFile_created by done.
  generalize (snd (template_run g pkg w)) as w2. intros w2.
  assert (Hclose : forall w3, exists c,
             close_event (filename g) c
             /\ syscalls (snd (File_Close (filename g) w3)) = syscalls w3 ++ [c]).
  { intros w3. unfold File_Close, bind, next_fault, record_event.
    destruct (faults w3) as [| [x |] flts]; simpl; eexists; split; try done;
      [by left | right; by eexists | by left]. }
  assert (Hrm : forall w3, syscalls (snd (os_Remove (filename g) w3)) = syscalls w3).
  { intros w3. unfold os_Remove, bind, next_fault, get_file, remove_file.
    cbv beta iota. cbn [files faults clock clock_reads stdout syscalls fst snd].
    destruct (files w3 !! filename g); [| done].
    by destruct (faults w3) as [| [x |] flts]. }
  assert (Herr : forall e w3, exists c,
             close_event (filename g) c
             /\ syscalls (snd (writeFile_deferred g (filename g) (Some e)
                                 (Returned (Some e)) w3)) = syscalls w3 ++ [c]).
  { intros e w3. rewrite writeFile_deferred_error_unfold. cbn [snd].
    destruct (Hclose w3) as (c & Hc & Hsys). exists c. split; [done |].
    rewrite <- Hsys, <- (Hrm (snd (File_Close (filename g) w3))).
    by destruct (fst (os_Remove (filename g) (snd (File_Close (filename g) w3)))). }
  destruct (fst (template_run g pkg w)) as [[e |] | r].
  - apply Herr.
  - destruct (Hclose w2) as (c & Hc & Hsys). exists c. split; [done |].
    rewrite <- Hsys. unfold writeFile_deferred, bind, ret. cbv beta iota.
    by destruct (File_Close (filename g) w2).
  - rewrite writeFile_deferred_panic.
    destruct (Herr Errorf_debug_Stack (snd (fmt_Printf (panic_message (filename g) r) w2)))
      as (c & Hc & Hsys).
    exists c. split; [done |]. by rewrite Hsys.
Qed.

Lemma writeFile_closes_file_witness :
  let w := sample_world ∅ [] in
  hd None (faults w) = None
  /\ exists c,
       close_event (str "models/kallax.go") c
       /\ syscalls (snd (@writeFile sample_packages sample_file [] w))
          = syscalls (snd (@template_run sample_packages sample_file [] w)) ++ [c].
Proof.
  intros w. split; [reflexivity |].
  exact (@writeFile_closes_file sample_packages sample_file [] w eq_refl).
Defined.
